(** * Brainzy: the in-memory entity store and the flashcard review scheduler

    A shallow embedding of
    - [server/storage.ts] (class [MemStorage]: one [Map<string, T>] per
      entity type, with create / get / update / delete / list-by methods),
    - the review computation of the flashcards view
      ([handleDifficultyRating], which builds the partial update sent to
      [PUT /api/flashcards/:id]),
    - the [PUT /api/flashcards/:id] and [PUT /api/notes/:id] handlers of
      [server/routes.ts],
    and the properties of the specification that concern them.

    TypeScript types are erased when the program runs, and the handlers
    hand [req.body] to the store unchecked, so records are modelled as the
    JavaScript objects they are: finite maps from property names to
    values.  Object spread is then key-wise union, [a || b] is selection
    on truthiness and [+] is JavaScript addition. *)

From Stdlib Require Import ZArith QArith.
From stdpp Require Import base gmap strings list fin_maps pretty.

Local Open Scope string_scope.
Local Open Scope Z_scope.

(** ** JavaScript values *)

#[local] Unset Elimination Schemes.

(** The values that occur in the records of [shared/schema]: text and
    varchar columns are strings, integer columns are numbers, timestamp
    columns are [Date]s, [jsonb] and array columns are objects and arrays;
    a nullable column may hold [null] and an optional property may be
    [undefined].  The numbers are the doubles that are integers (counters,
    sizes and time values in milliseconds), written [VNum n] for the
    double of value [n], the two infinities and NaN; sums are rounded as
    doubles are (see [js_add]).  A [Date] carries its time value, the
    milliseconds since the epoch. *)
Inductive value : Type :=
| VUndefined
| VNull
| VBool (b : bool)
| VNum (n : Z)
| VInf (negative : bool)
| VNaN
| VStr (s : string)
| VDate (t : Z)
| VArr (elems : list value)
| VObj (props : list (string * value)).
#[local] Set Elimination Schemes.

(** A record: the own properties of a plain object. *)
Abbreviation obj := (gmap string value).

(** [o.k]: reading a property that is absent gives [undefined]. *)
Definition field (o : obj) (k : string) : value := default VUndefined (o !! k).

(** [{ ...base, ...ext }]: properties of [ext] win. *)
Definition spread (base ext : obj) : obj := ext ∪ base.

(** ToBoolean. *)
Definition truthy (v : value) : bool :=
  match v with
  | VUndefined | VNull | VNaN => false
  | VBool b => b
  | VNum n => negb (n =? 0)
  | VStr s => match s with EmptyString => false | String _ _ => true end
  | VInf _ | VDate _ | VArr _ | VObj _ => true
  end.

(** [a || b]. *)
Definition js_or (a b : value) : value := if truthy a then a else b.

(** [v === s] for a string [s]. *)
Definition strict_eq_str (v : value) (s : string) : bool :=
  match v with
  | VStr t => bool_decide (t = s)
  | _ => false
  end.

(** A number as arithmetic sees it: finite, infinite or NaN. *)
Inductive number : Type :=
| Finite (n : Z)
| Infinite (negative : bool)
| NaN.

(** The double nearest to an integer, as an integer: below 2^53 in
    magnitude every integer is a double; from there on a double keeps 53
    significant bits, so the integer is rounded to a multiple of the
    power of two that is left over, to the nearest one and to the one with
    the even significand when it is half way. *)
Definition round_to_double (z : Z) : Z :=
  let a := Z.abs z in
  if a <? 2 ^ 53 then z
  else
    let q := 2 ^ (Z.log2 a - 52) in
    let m := a / q in
    let r := a mod q in
    let m' := if 2 * r <? q then m
              else if q <? 2 * r then m + 1
              else if Z.even m then m
              else m + 1 in
    Z.sgn z * (m' * q).

(** The number an exact integer result becomes: rounded to a double, and
    infinite when the rounded magnitude reaches 2^1024. *)
Definition number_of_Z (z : Z) : number :=
  let r := round_to_double z in
  if 2 ^ 1024 <=? Z.abs r then Infinite (z <? 0) else Finite r.

(** Addition of numbers. *)
Definition add_number (a b : number) : number :=
  match a, b with
  | NaN, _ | _, NaN => NaN
  | Infinite s, Infinite s' => if Bool.eqb s s' then Infinite s else NaN
  | Infinite s, Finite _ | Finite _, Infinite s => Infinite s
  | Finite x, Finite y => number_of_Z (x + y)
  end.

Definition value_of_number (a : number) : value :=
  match a with
  | Finite n => VNum n
  | Infinite s => VInf s
  | NaN => VNaN
  end.

(** What the host decides: [Date.prototype.toString] prints a time value in
    the local time zone. *)
Class Host := date_toString : Z → string.

Section Operators.
Context `{!Host}.

(** ToString.  An array prints its elements separated by commas, with
    [null] and [undefined] printed as nothing; a plain object prints as
    [[object Object]]. *)
Fixpoint to_string (v : value) : string :=
  match v with
  | VUndefined => "undefined"
  | VNull => "null"
  | VBool true => "true"
  | VBool false => "false"
  | VNum n => pretty n
  | VInf false => "Infinity"
  | VInf true => "-Infinity"
  | VNaN => "NaN"
  | VStr s => s
  | VDate t => date_toString t
  | VArr elems =>
      let elem_string (e : value) : string :=
        match e with
        | VUndefined | VNull => ""
        | _ => to_string e
        end in
      String.concat "," (map elem_string elems)
  | VObj _ => "[object Object]"
  end.

(** ToPrimitive without a hint: dates, arrays and objects become the
    string they print as. *)
Definition to_primitive (v : value) : value :=
  match v with
  | VDate _ | VArr _ | VObj _ => VStr (to_string v)
  | _ => v
  end.

(** ToNumber on the primitives that are not strings. *)
Definition to_number (v : value) : number :=
  match v with
  | VNull => Finite 0
  | VBool b => Finite (if b then 1 else 0)
  | VNum n => Finite n
  | VInf s => Infinite s
  | _ => NaN
  end.

(** [a + b]: concatenation when either operand is a string once
    primitive, addition of doubles otherwise. *)
Definition js_add (a b : value) : value :=
  match to_primitive a, to_primitive b with
  | VStr s, q => VStr (s +:+ to_string q)
  | p, VStr s => VStr (to_string p +:+ s)
  | p, q => value_of_number (add_number (to_number p) (to_number q))
  end.
End Operators.

(** [{ ...base, k1: v1, ..., kn: vn }]: the properties written after the
    spread are set in order, each over what is there already. *)
Definition with_props (base : obj) (props : list (string * value)) : obj :=
  foldl (λ o kv, <[kv.1 := kv.2]> o) base props.

(** ** The store: [class MemStorage] of [server/storage.ts] *)

(** One [Map<string, T>] per entity type.  No property below depends on
    the order in which a [Map] enumerates its entries, so each is a finite
    map. *)
Record MemStorage : Type := mkMemStorage {
  users : gmap string obj;
  documents : gmap string obj;
  notes : gmap string obj;
  flashcardSets : gmap string obj;
  flashcards : gmap string obj;
  quizzes : gmap string obj;
  quizAttempts : gmap string obj;
  chatMessages : gmap string obj
}.

(** [new MemStorage()]. *)
Definition new_MemStorage : MemStorage := mkMemStorage ∅ ∅ ∅ ∅ ∅ ∅ ∅ ∅.

Definition set_users (m : gmap string obj) (st : MemStorage) : MemStorage :=
  mkMemStorage m (documents st) (notes st) (flashcardSets st) (flashcards st)
    (quizzes st) (quizAttempts st) (chatMessages st).
Definition set_documents (m : gmap string obj) (st : MemStorage) : MemStorage :=
  mkMemStorage (users st) m (notes st) (flashcardSets st) (flashcards st)
    (quizzes st) (quizAttempts st) (chatMessages st).
Definition set_notes (m : gmap string obj) (st : MemStorage) : MemStorage :=
  mkMemStorage (users st) (documents st) m (flashcardSets st) (flashcards st)
    (quizzes st) (quizAttempts st) (chatMessages st).
Definition set_flashcardSets (m : gmap string obj) (st : MemStorage) : MemStorage :=
  mkMemStorage (users st) (documents st) (notes st) m (flashcards st)
    (quizzes st) (quizAttempts st) (chatMessages st).
Definition set_flashcards (m : gmap string obj) (st : MemStorage) : MemStorage :=
  mkMemStorage (users st) (documents st) (notes st) (flashcardSets st) m
    (quizzes st) (quizAttempts st) (chatMessages st).
Definition set_quizzes (m : gmap string obj) (st : MemStorage) : MemStorage :=
  mkMemStorage (users st) (documents st) (notes st) (flashcardSets st)
    (flashcards st) m (quizAttempts st) (chatMessages st).
Definition set_quizAttempts (m : gmap string obj) (st : MemStorage) : MemStorage :=
  mkMemStorage (users st) (documents st) (notes st) (flashcardSets st)
    (flashcards st) (quizzes st) m (chatMessages st).
Definition set_chatMessages (m : gmap string obj) (st : MemStorage) : MemStorage :=
  mkMemStorage (users st) (documents st) (notes st) (flashcardSets st)
    (flashcards st) (quizzes st) (quizAttempts st) m.

(** [Array.from(m.values())]. *)
Definition values (m : gmap string obj) : list obj := (map_to_list m).*2.

(** [Array.from(m.values()).filter(x => x.k === v)], the body of every
    [get...By...] method. *)
Definition values_where (k : string) (v : string) (m : gmap string obj) : list obj :=
  List.filter (λ x, strict_eq_str (field x k) v) (values m).

(** [m.delete(id)]: whether an entry was removed, and the map without it. *)
Definition map_delete (id : string) (m : gmap string obj) : bool * gmap string obj :=
  (bool_decide (is_Some (m !! id)), delete id m).

(** The methods.  A method that calls [randomUUID()] takes the identifier
    it draws as [id], and one that calls [new Date()] takes the clock's
    time value as [now]; each returns its result and the store after it. *)
Module Storage.

(** *** Users *)

Definition getUser (id : string) (st : MemStorage) : option obj :=
  users st !! id.

(** [Array.from(this.users.values()).find(user => user.email === email)]:
    some user with that e-mail address, if there is one. *)
Definition getUserByEmail (email : string) (st : MemStorage) : option obj :=
  List.find (λ user, strict_eq_str (field user "email") email) (values (users st)).

Definition createUser (id : string) (now : Z) (insertUser : obj)
    (st : MemStorage) : obj * MemStorage :=
  let user := with_props insertUser
    [("id", VStr id);
     ("createdAt", VDate now);
     ("spotifyAccessToken", VNull);
     ("spotifyRefreshToken", VNull)] in
  (user, set_users (<[id := user]> (users st)) st).

Definition updateUser (id : string) (updates : obj)
    (st : MemStorage) : option obj * MemStorage :=
  match users st !! id with
  | None => (None, st)
  | Some user =>
      let updatedUser := spread user updates in
      (Some updatedUser, set_users (<[id := updatedUser]> (users st)) st)
  end.

(** *** Documents *)

Definition getDocument (id : string) (st : MemStorage) : option obj :=
  documents st !! id.

Definition getDocumentsByUser (userId : string) (st : MemStorage) : list obj :=
  values_where "userId" userId (documents st).

Definition createDocument (id : string) (now : Z) (insertDocument : obj)
    (st : MemStorage) : obj * MemStorage :=
  let document := with_props insertDocument
    [("id", VStr id);
     ("createdAt", VDate now);
     ("metadata", js_or (field insertDocument "metadata") VNull);
     ("originalUrl", js_or (field insertDocument "originalUrl") VNull)] in
  (document, set_documents (<[id := document]> (documents st)) st).

Definition deleteDocument (id : string) (st : MemStorage) : bool * MemStorage :=
  let '(removed, m) := map_delete id (documents st) in
  (removed, set_documents m st).

(** *** Notes *)

Definition getNote (id : string) (st : MemStorage) : option obj :=
  notes st !! id.

Definition getNotesByUser (userId : string) (st : MemStorage) : list obj :=
  values_where "userId" userId (notes st).

Definition getNotesByDocument (documentId : string) (st : MemStorage) : list obj :=
  values_where "documentId" documentId (notes st).

Definition createNote (id : string) (now : Z) (insertNote : obj)
    (st : MemStorage) : obj * MemStorage :=
  let note := with_props insertNote
    [("id", VStr id);
     ("createdAt", VDate now);
     ("updatedAt", VDate now);
     ("documentId", js_or (field insertNote "documentId") VNull);
     ("subject", js_or (field insertNote "subject") VNull);
     ("tags", js_or (field insertNote "tags") VNull);
     ("wordCount", js_or (field insertNote "wordCount") (VNum 0))] in
  (note, set_notes (<[id := note]> (notes st)) st).

Definition updateNote (id : string) (now : Z) (updates : obj)
    (st : MemStorage) : option obj * MemStorage :=
  match notes st !! id with
  | None => (None, st)
  | Some note =>
      let updatedNote :=
        with_props (spread note updates) [("updatedAt", VDate now)] in
      (Some updatedNote, set_notes (<[id := updatedNote]> (notes st)) st)
  end.

Definition deleteNote (id : string) (st : MemStorage) : bool * MemStorage :=
  let '(removed, m) := map_delete id (notes st) in
  (removed, set_notes m st).

(** *** Flashcard sets and flashcards *)

Definition getFlashcardSet (id : string) (st : MemStorage) : option obj :=
  flashcardSets st !! id.

Definition getFlashcardSetsByUser (userId : string) (st : MemStorage) : list obj :=
  values_where "userId" userId (flashcardSets st).

Definition createFlashcardSet (id : string) (now : Z) (insertSet : obj)
    (st : MemStorage) : obj * MemStorage :=
  let set := with_props insertSet
    [("id", VStr id);
     ("createdAt", VDate now);
     ("documentId", js_or (field insertSet "documentId") VNull);
     ("description", js_or (field insertSet "description") VNull);
     ("cardCount", js_or (field insertSet "cardCount") (VNum 0))] in
  (set, set_flashcardSets (<[id := set]> (flashcardSets st)) st).

Definition getFlashcardsBySet (setId : string) (st : MemStorage) : list obj :=
  values_where "setId" setId (flashcards st).

Definition createFlashcard (id : string) (insertCard : obj)
    (st : MemStorage) : obj * MemStorage :=
  let card := with_props insertCard
    [("id", VStr id);
     ("difficulty", js_or (field insertCard "difficulty") (VStr "medium"));
     ("lastReviewed", js_or (field insertCard "lastReviewed") VNull);
     ("nextReview", js_or (field insertCard "nextReview") VNull);
     ("repetitions", js_or (field insertCard "repetitions") (VNum 0));
     ("easinessFactor", js_or (field insertCard "easinessFactor") (VNum 250))] in
  (card, set_flashcards (<[id := card]> (flashcards st)) st).

Definition updateFlashcard (id : string) (updates : obj)
    (st : MemStorage) : option obj * MemStorage :=
  match flashcards st !! id with
  | None => (None, st)
  | Some card =>
      let updatedCard := spread card updates in
      (Some updatedCard, set_flashcards (<[id := updatedCard]> (flashcards st)) st)
  end.

(** *** Quizzes and quiz attempts *)

Definition getQuiz (id : string) (st : MemStorage) : option obj :=
  quizzes st !! id.

Definition getQuizzesByUser (userId : string) (st : MemStorage) : list obj :=
  values_where "userId" userId (quizzes st).

Definition createQuiz (id : string) (now : Z) (insertQuiz : obj)
    (st : MemStorage) : obj * MemStorage :=
  let quiz := with_props insertQuiz
    [("id", VStr id);
     ("createdAt", VDate now);
     ("documentId", js_or (field insertQuiz "documentId") VNull);
     ("description", js_or (field insertQuiz "description") VNull);
     ("timeLimit", js_or (field insertQuiz "timeLimit") VNull)] in
  (quiz, set_quizzes (<[id := quiz]> (quizzes st)) st).

Definition getQuizAttemptsByUser (userId : string) (st : MemStorage) : list obj :=
  values_where "userId" userId (quizAttempts st).

Definition createQuizAttempt (id : string) (now : Z) (insertAttempt : obj)
    (st : MemStorage) : obj * MemStorage :=
  let attempt := with_props insertAttempt
    [("id", VStr id);
     ("completedAt", VDate now);
     ("timeSpent", js_or (field insertAttempt "timeSpent") VNull)] in
  (attempt, set_quizAttempts (<[id := attempt]> (quizAttempts st)) st).

(** *** Chat messages *)

Definition getChatMessagesByDocument (documentId : string) (st : MemStorage) : list obj :=
  values_where "documentId" documentId (chatMessages st).

Definition createChatMessage (id : string) (now : Z) (insertMessage : obj)
    (st : MemStorage) : obj * MemStorage :=
  let message := with_props insertMessage
    [("id", VStr id);
     ("createdAt", VDate now);
     ("documentId", js_or (field insertMessage "documentId") VNull)] in
  (message, set_chatMessages (<[id := message]> (chatMessages st)) st).

End Storage.

(** ** The store's operations by entity type

    The specification speaks of [create(T, P)], [get(T, id)],
    [update(T, id, F)], [delete(T, id)] and [listBy(T, F, V)].  These
    tables say which method of [MemStorage] each one is; [IStorage] has no
    getter for flashcards, quiz attempts and chat messages, updates only
    for users, notes and flashcards, and deletion only for documents and
    notes. *)
Inductive entity : Type :=
| User | Document | Note | FlashcardSet | Flashcard | Quiz | QuizAttempt | ChatMessage.

#[global] Instance entity_eq_dec : EqDecision entity.
Proof. solve_decision. Defined.

(** The [Map] that holds the records of a type. *)
Definition collection (T : entity) (st : MemStorage) : gmap string obj :=
  match T with
  | User => users st
  | Document => documents st
  | Note => notes st
  | FlashcardSet => flashcardSets st
  | Flashcard => flashcards st
  | Quiz => quizzes st
  | QuizAttempt => quizAttempts st
  | ChatMessage => chatMessages st
  end.

Definition op_create (T : entity) (id : string) (now : Z) (payload : obj)
    (st : MemStorage) : obj * MemStorage :=
  match T with
  | User => Storage.createUser id now payload st
  | Document => Storage.createDocument id now payload st
  | Note => Storage.createNote id now payload st
  | FlashcardSet => Storage.createFlashcardSet id now payload st
  | Flashcard => Storage.createFlashcard id payload st
  | Quiz => Storage.createQuiz id now payload st
  | QuizAttempt => Storage.createQuizAttempt id now payload st
  | ChatMessage => Storage.createChatMessage id now payload st
  end.

Definition op_get (T : entity) : option (string → MemStorage → option obj) :=
  match T with
  | User => Some Storage.getUser
  | Document => Some Storage.getDocument
  | Note => Some Storage.getNote
  | FlashcardSet => Some Storage.getFlashcardSet
  | Quiz => Some Storage.getQuiz
  | Flashcard | QuizAttempt | ChatMessage => None
  end.

Definition op_update (T : entity)
    : option (string → Z → obj → MemStorage → option obj * MemStorage) :=
  match T with
  | User => Some (λ id _ updates, Storage.updateUser id updates)
  | Note => Some Storage.updateNote
  | Flashcard => Some (λ id _ updates, Storage.updateFlashcard id updates)
  | _ => None
  end.

Definition op_delete (T : entity) : option (string → MemStorage → bool * MemStorage) :=
  match T with
  | Document => Some Storage.deleteDocument
  | Note => Some Storage.deleteNote
  | _ => None
  end.

(** The eight filtered listings. *)
Inductive listing : Type :=
| DocumentsByUser | NotesByUser | NotesByDocument | FlashcardSetsByUser
| FlashcardsBySet | QuizzesByUser | QuizAttemptsByUser | ChatMessagesByDocument.

Definition op_listBy (L : listing) : string → MemStorage → list obj :=
  match L with
  | DocumentsByUser => Storage.getDocumentsByUser
  | NotesByUser => Storage.getNotesByUser
  | NotesByDocument => Storage.getNotesByDocument
  | FlashcardSetsByUser => Storage.getFlashcardSetsByUser
  | FlashcardsBySet => Storage.getFlashcardsBySet
  | QuizzesByUser => Storage.getQuizzesByUser
  | QuizAttemptsByUser => Storage.getQuizAttemptsByUser
  | ChatMessagesByDocument => Storage.getChatMessagesByDocument
  end.

(** The type a listing ranges over and the foreign-key property it
    compares. *)
Definition listing_entity (L : listing) : entity :=
  match L with
  | DocumentsByUser => Document
  | NotesByUser | NotesByDocument => Note
  | FlashcardSetsByUser => FlashcardSet
  | FlashcardsBySet => Flashcard
  | QuizzesByUser => Quiz
  | QuizAttemptsByUser => QuizAttempt
  | ChatMessagesByDocument => ChatMessage
  end.

Definition listing_field (L : listing) : string :=
  match L with
  | DocumentsByUser | NotesByUser | FlashcardSetsByUser
  | QuizzesByUser | QuizAttemptsByUser => "userId"
  | NotesByDocument | ChatMessagesByDocument => "documentId"
  | FlashcardsBySet => "setId"
  end.

(** ** The update routes of [server/routes.ts] *)

(** [res.json(body)] and [res.status(code).json({ message })]. *)
Inductive response : Type :=
| res_json (body : obj)
| res_status_json (code : Z) (message : string).

(** [PUT /api/flashcards/:id]: the request body goes to the store as it
    is.  The store's methods do not throw, so the [catch] branch is never
    taken. *)
Definition put_flashcard (id : string) (updates : obj)
    (st : MemStorage) : response * MemStorage :=
  let '(card, st') := Storage.updateFlashcard id updates st in
  match card with
  | None => (res_status_json 404 "Flashcard not found", st')
  | Some c => (res_json c, st')
  end.

(** [PUT /api/notes/:id]. *)
Definition put_note (id : string) (now : Z) (updates : obj)
    (st : MemStorage) : response * MemStorage :=
  let '(note, st') := Storage.updateNote id now updates st in
  match note with
  | None => (res_status_json 404 "Note not found", st')
  | Some n => (res_json n, st')
  end.

(** ** The review scheduler: [handleDifficultyRating] of the flashcards view *)

(** ToIntegerOrInfinity on a rational: truncation towards zero, which
    [new Date(ms)] applies to its argument. *)
Definition Qtrunc (q : Q) : Z := Z.quot (Qnum q) (Z.pos (Qden q)).

(** [new Date(ms)].  The bound of 8.64e15 milliseconds on time values is
    out of reach of a clock reading plus three days and is not
    represented. *)
Definition new_Date (ms : Q) : value := VDate (Qtrunc ms).

(** [difficulty === 'easy' ? 3 : difficulty === 'medium' ? 1 : 0.5].  The
    factor is the one number of the program that is not an integer, so the
    arithmetic around it is done in the rationals. *)
Definition interval_days (difficulty : value) : Q :=
  if strict_eq_str difficulty "easy" then 3%Q
  else if strict_eq_str difficulty "medium" then 1%Q
  else 0.5%Q.

(** The argument of [updateFlashcardMutation.mutate]. *)
Record mutation : Type := mkMutation {
  mut_id : value;
  mut_updates : obj
}.

Section Scheduler.
Context `{!Host}.

(** The partial update computed for [card] at the instant [now]. *)
Definition review_updates (now : Z) (card : obj) (difficulty : value) : obj :=
  let nextReview :=
    new_Date (inject_Z now + interval_days difficulty * 24 * 60 * 60 * 1000)%Q in
  with_props ∅
    [("difficulty", difficulty);
     ("lastReviewed", VDate now);
     ("nextReview", nextReview);
     ("repetitions", js_add (js_or (field card "repetitions") (VNum 0)) (VNum 1))].

(** [handleDifficultyRating(difficulty)] with the view's [currentCards]
    and [currentCardIndex]: nothing is sent when the cards are not loaded
    or the index is past them.  What follows the call in the source
    (statistics, the move to the next card, the toast) touches neither
    the card nor the store and is left out. *)
Definition handleDifficultyRating (now : Z) (currentCards : option (list obj))
    (currentCardIndex : nat) (difficulty : value) : option mutation :=
  match currentCards with
  | None => None
  | Some cards =>
      match cards !! currentCardIndex with
      | None => None
      | Some card =>
          Some (mkMutation (field card "id") (review_updates now card difficulty))
      end
  end.

(** A review from end to end: the view's handler, then the request
    [PUT /api/flashcards/${id}] it sends, served by the route.  The body
    reaches the route as it was built; a [Date] stands for the instant
    it carries on both sides.  [None] when no request is sent. *)
Definition reviewCard (now : Z) (currentCards : option (list obj))
    (currentCardIndex : nat) (difficulty : value)
    (st : MemStorage) : option response * MemStorage :=
  match handleDifficultyRating now currentCards currentCardIndex difficulty with
  | None => (None, st)
  | Some m =>
      let '(r, st') := put_flashcard (to_string (mut_id m)) (mut_updates m) st in
      (Some r, st')
  end.
End Scheduler.

(** ** Vocabulary of the specification *)

(** The three ratings of the specification and the strings that name
    them. *)
Inductive rating : Type := Easy | Medium | Hard.

Definition rating_name (r : rating) : string :=
  match r with
  | Easy => "easy"
  | Medium => "medium"
  | Hard => "hard"
  end.

(** The review interval in days as the specification gives it:
    easy 3, medium 1, hard 0.5. *)
Definition rating_days (r : rating) : Q :=
  match r with
  | Easy => 3%Q
  | Medium => 1%Q
  | Hard => (1 # 2)%Q
  end.

(** The counter a [repetitions] property stands for: a number counts as
    itself, [null] and an absent property as 0.  A counter is a number up
    to 2^53 in magnitude, the range in which the integers are doubles one
    after the other. *)
Definition is_count (v : value) : bool :=
  match v with
  | VNum n => (- 2 ^ 53 <=? n) && (n <=? 2 ^ 53)
  | VNull | VUndefined => true
  | _ => false
  end.

Definition count_of (v : value) : Z :=
  match v with
  | VNum n => n
  | _ => 0
  end.

(** One review of a card that the view holds as the store has it: the
    card shown was read from the store and is rated before anything else
    changes it. *)
Inductive review_step `{!Host} : MemStorage → MemStorage → Prop :=
| ReviewStep now cards idx card id d st :
    cards !! idx = Some card →
    field card "id" = VStr id →
    flashcards st !! id = Some card →
    review_step st (reviewCard now (Some cards) idx d st).2.

(** One review, from whatever copy of a card the view holds. *)
Inductive review_from_copy `{!Host} : MemStorage → MemStorage → Prop :=
| ReviewFromCopy now currentCards idx d st :
    review_from_copy st (reviewCard now currentCards idx d st).2.

(** The counter property as the specification words it: every review of
    a stored card adds one to its stored counter, and over any sequence of
    reviews the counter of a card does not go down. *)
Definition review_adds_one_to_stored `{!Host} : Prop :=
  ∀ now cards idx card id stored d st,
    cards !! idx = Some card →
    field card "id" = VStr id →
    flashcards st !! id = Some stored →
    ∃ updated,
      flashcards (reviewCard now (Some cards) idx d st).2 !! id = Some updated ∧
      field updated "repetitions" = VNum (count_of (field stored "repetitions") + 1).

Definition repetitions_never_decrease `{!Host} : Prop :=
  ∀ st st' id card card',
    rtc review_from_copy st st' →
    flashcards st !! id = Some card →
    flashcards st' !! id = Some card' →
    count_of (field card "repetitions") ≤ count_of (field card' "repetitions").

(** The review timestamps of a record are in order: when [lastReviewed]
    and [nextReview] are both dates, the second is strictly later. *)
Definition review_ordered (card : obj) : Prop :=
  ∀ a b,
    field card "lastReviewed" = VDate a →
    field card "nextReview" = VDate b →
    a < b.

Definition store_ordered (st : MemStorage) : Prop :=
  ∀ id card, flashcards st !! id = Some card → review_ordered card.

(** The stores that creation and review of flashcards lead to from the
    empty one, when creation is given the payloads in [accepted].  A
    review may be made from any list of cards the view holds, current or
    not. *)
Inductive reachable `{!Host} (accepted : obj → Prop) : MemStorage → Prop :=
| reach_new :
    reachable accepted new_MemStorage
| reach_create id payload st :
    reachable accepted st →
    accepted payload →
    reachable accepted (Storage.createFlashcard id payload st).2
| reach_review now currentCards idx d st :
    reachable accepted st →
    reachable accepted (reviewCard now currentCards idx d st).2.

(** The properties that [createFlashcard] defaults, each with its
    default. *)
Definition flashcard_defaults : list (string * value) :=
  [("difficulty", VStr "medium");
   ("lastReviewed", VNull);
   ("nextReview", VNull);
   ("repetitions", VNum 0);
   ("easinessFactor", VNum 250)].

(** The partial-update property as the specification words it: an update
    with the one property [f] changes no other property of the stored
    record. *)
Definition update_changes_only_field (T : entity) : Prop :=
  ∀ update id now f v st old,
    op_update T = Some update →
    collection T st !! id = Some old →
    ∃ new,
      collection T (update id now {[f := v]} st).2 !! id = Some new ∧
      ∀ g, g ≠ f → new !! g = old !! g.

(** Immutability of [id] as the specification words it: no update, with
    any partial, changes the [id] of the stored record. *)
Definition update_keeps_id (T : entity) : Prop :=
  ∀ update id now updates st old,
    op_update T = Some update →
    collection T st !! id = Some old →
    ∃ new,
      collection T (update id now updates st).2 !! id = Some new ∧
      field new "id" = field old "id".

(** ** Sample data for the closed examples *)

(** A host that prints a date as its time value. *)
Definition sample_host : Host := λ t, "Date(" +:+ pretty t +:+ ")".

(** The time value of midnight UTC on a day of the Gregorian calendar,
    by the usual count of days from 1970-01-01 (years taken from March). *)
Definition utc_midnight (year month day : Z) : Z :=
  let y := if month <=? 2 then year - 1 else year in
  let era := y / 400 in
  let yoe := y - era * 400 in
  let mp := if month <=? 2 then month + 9 else month - 3 in
  let doy := (153 * mp + 2) / 5 + day - 1 in
  let doe := yoe * 365 + yoe / 4 - yoe / 100 + doy in
  (era * 146097 + doe - 719468) * 86400000.

(** 2024-01-01T00:00:00Z and 2024-01-04T00:00:00Z. *)
Definition t_2024_01_01 : Z := utc_midnight 2024 1 1.
Definition t_2024_01_04 : Z := utc_midnight 2024 1 4.

(** A store with one flashcard, created as the generation route does (with
    set, question, answer and difficulty only), so that [repetitions] is 0
    and [lastReviewed] is [null]. *)
Definition sample_payload : obj :=
  with_props ∅
    [("setId", VStr "s1"); ("question", VStr "q"); ("answer", VStr "a");
     ("difficulty", VStr "medium")].
Definition sample_card : obj :=
  (Storage.createFlashcard "c1" sample_payload new_MemStorage).1.
Definition sample_store : MemStorage :=
  (Storage.createFlashcard "c1" sample_payload new_MemStorage).2.

(** The sample card reviewed twice, each time from the copy the store
    holds, and then once more from the copy fetched before the first
    review. *)
Definition reviewed_once : MemStorage :=
  (reviewCard (H := sample_host) 10 (Some [sample_card]) 0 (VStr "easy")
     sample_store).2.
Definition sample_card_once : obj := default ∅ (flashcards reviewed_once !! "c1").
Definition reviewed_twice : MemStorage :=
  (reviewCard (H := sample_host) 20 (Some [sample_card_once]) 0 (VStr "easy")
     reviewed_once).2.
Definition reviewed_stale : MemStorage :=
  (reviewCard (H := sample_host) 30 (Some [sample_card]) 0 (VStr "easy")
     reviewed_twice).2.

(** A store with two flashcards of one set, as fetched for a deck. *)
Definition two_card_store : MemStorage :=
  (Storage.createFlashcard "c2" sample_payload sample_store).2.
Definition sample_card_2 : obj :=
  (Storage.createFlashcard "c2" sample_payload sample_store).1.

(** A creation payload whose review timestamps are the wrong way round. *)
Definition backwards_payload : obj :=
  with_props sample_payload
    [("lastReviewed", VDate t_2024_01_04); ("nextReview", VDate t_2024_01_01)].

(** A store with one note, created at time 0. *)
Definition sample_note_payload : obj :=
  with_props ∅
    [("userId", VStr "demo-user"); ("title", VStr "t"); ("content", VStr "c")].
Definition sample_note_store : MemStorage :=
  (Storage.createNote "n1" 0 sample_note_payload new_MemStorage).2.

(** ** The study session of the flashcards view *)

(** The state of [FlashcardsSection]: [currentSet], [currentCardIndex],
    [showAnswer] and [studyStats]. *)
Record studyStats : Type := mkStudyStats {
  correct : Z;
  total : Z
}.

Record session : Type := mkSession {
  currentSet : option obj;
  cardIndex : nat;
  showAnswer : bool;
  stats : studyStats
}.

(** The argument of [toast]. *)
Record toast : Type := mkToast {
  toast_title : string;
  toast_description : string
}.

(** The state the component starts in. *)
Definition initial_session : session :=
  mkSession None 0 false (mkStudyStats 0 0).

(** [startStudySession(set)]. *)
Definition startStudySession (set : obj) (s : session) : session :=
  mkSession (Some set) 0 false (mkStudyStats 0 0).

(** [handleCardFlip()]. *)
Definition handleCardFlip (s : session) : session :=
  mkSession (currentSet s) (cardIndex s) (negb (showAnswer s)) (stats s).

Section Session.
Context `{!Host}.

(** [handleDifficultyRating(difficulty)] in full, on the state the view
    was rendered with: the mutation it sends, the toast it shows and the
    state after it.  While a card follows, the statistics count the rating
    and the view moves to the next card with the answer hidden; on the last
    card the toast reports the count and the session is cleared (the reset
    of the statistics comes after their update and wins; [showAnswer] is
    left as it is). *)
Definition rateCard (now : Z) (currentCards : option (list obj))
    (difficulty : value) (s : session) : option mutation * option toast * session :=
  match handleDifficultyRating now currentCards (cardIndex s) difficulty with
  | None => (None, None, s)
  | Some m =>
      let isCorrect := strict_eq_str difficulty "easy" in
      let counted :=
        mkStudyStats (correct (stats s) + (if isCorrect then 1 else 0))
                     (total (stats s) + 1) in
      if Z.of_nat (cardIndex s) <? Z.of_nat (length (default [] currentCards)) - 1
      then
        (Some m, None, mkSession (currentSet s) (cardIndex s + 1) false counted)
      else
        (Some m,
         Some (mkToast "Deck completed! 🎉"
                 ("You got " +:+ pretty (correct (stats s) + (if isCorrect then 1 else 0))
                  +:+ " out of " +:+ pretty (total (stats s) + 1) +:+ " correct.")),
         mkSession None 0 (showAnswer s) (mkStudyStats 0 0))
  end.

(** The view with the answer of its card shown: the rating buttons are
    rendered only while [showAnswer] is true, so a card whose answer is
    hidden is turned with [handleCardFlip] before it can be rated. *)
Definition revealed (s : session) : session :=
  if showAnswer s then s else handleCardFlip s.

(** A run of ratings over the cards of a deck, each given with the time
    it is made at and made on the card turned to its answer: the mutations
    sent and the toasts shown, in order, and the state at the end. *)
Fixpoint study (cards : list obj) (ratings : list (Z * value)) (s : session)
    : list mutation * list toast * session :=
  match ratings with
  | [] => ([], [], s)
  | (now, difficulty) :: rest =>
      let '(sent, shown, s1) :=
        rateCard now (Some cards) difficulty (revealed s) in
      let '(sents, showns, s2) := study cards rest s1 in
      ((option_list sent ++ sents)%list, (option_list shown ++ showns)%list, s2)
  end.
End Session.

(** The mutations a run sends when it rates, one after the other, the
    cards from position [i] on. *)
Definition sent_for `{!Host} (cards : list obj) (i : nat)
    (ratings : list (Z * value)) : list mutation :=
  zip_with (λ card r, mkMutation (field card "id") (review_updates r.1 card r.2))
    (drop i cards) ratings.

(** The store after the route has served, in order, the requests of the
    mutations sent. *)
Definition serve_all `{!Host} (sent : list mutation) (st : MemStorage) : MemStorage :=
  foldl (λ st m, (put_flashcard (to_string (mut_id m)) (mut_updates m) st).2) st sent.

(** The number of "easy" among the ratings of a run. *)
Definition easy_count (ratings : list (Z * value)) : Z :=
  Z.of_nat (length (List.filter (λ r, strict_eq_str r.2 "easy") ratings)).

(** ** The store as a whole *)

(** The properties a create method sets itself, over whatever the payload
    holds. *)
Definition server_assigned (T : entity) (id : string) (now : Z) : list (string * value) :=
  match T with
  | User =>
      [("id", VStr id); ("createdAt", VDate now);
       ("spotifyAccessToken", VNull); ("spotifyRefreshToken", VNull)]
  | Note => [("id", VStr id); ("createdAt", VDate now); ("updatedAt", VDate now)]
  | Flashcard => [("id", VStr id)]
  | QuizAttempt => [("id", VStr id); ("completedAt", VDate now)]
  | Document | FlashcardSet | Quiz | ChatMessage =>
      [("id", VStr id); ("createdAt", VDate now)]
  end.

(** The properties a create method defaults with [||], each with its
    default. *)
Definition defaulted (T : entity) : list (string * value) :=
  match T with
  | User => []
  | Document => [("metadata", VNull); ("originalUrl", VNull)]
  | Note =>
      [("documentId", VNull); ("subject", VNull); ("tags", VNull);
       ("wordCount", VNum 0)]
  | FlashcardSet =>
      [("documentId", VNull); ("description", VNull); ("cardCount", VNum 0)]
  | Flashcard => flashcard_defaults
  | Quiz => [("documentId", VNull); ("description", VNull); ("timeLimit", VNull)]
  | QuizAttempt => [("timeSpent", VNull)]
  | ChatMessage => [("documentId", VNull)]
  end.

(** One call that changes the store: a creation, an update whose partial
    has no [id] property, a deletion, or a review. *)
Inductive store_step `{!Host} : MemStorage → MemStorage → Prop :=
| step_create T id now payload st :
    store_step st (op_create T id now payload st).2
| step_update T update id now updates st :
    op_update T = Some update →
    updates !! "id" = None →
    store_step st (update id now updates st).2
| step_delete T del id st :
    op_delete T = Some del →
    store_step st (del id st).2
| step_review now currentCards idx d st :
    store_step st (reviewCard now currentCards idx d st).2.

(** The stores that creating, updating and deleting notes lead to while
    the clock does not go back and no partial sets [createdAt]; the index
    is the time of the last call. *)
Inductive notes_history : Z → MemStorage → Prop :=
| notes_start t :
    notes_history t new_MemStorage
| notes_created t id now payload st :
    notes_history t st →
    t ≤ now →
    notes_history now (Storage.createNote id now payload st).2
| notes_updated t id now updates st :
    notes_history t st →
    t ≤ now →
    updates !! "createdAt" = None →
    notes_history now (Storage.updateNote id now updates st).2
| notes_deleted t id st :
    notes_history t st →
    notes_history t (Storage.deleteNote id st).2.

(** Every record is stored under its own [id]. *)
Definition keyed_by_id (st : MemStorage) : Prop :=
  ∀ T id r, collection T st !! id = Some r → field r "id" = VStr id.

(** ** [POST /api/flashcard-sets/generate] *)

Section Generate.
Context `{!Host}.

(** [insertFlashcardSetSchema.parse] and [insertFlashcardSchema.parse],
    which are not of this repository: each gives the parsed payload or
    throws an error with a message. *)
Variable parseSet parseCard : obj → string + obj.

(** The object given to [insertFlashcardSchema.parse] for a generated
    card. *)
Definition card_input (set cardData : obj) : obj :=
  with_props ∅
    [("setId", field set "id");
     ("question", field cardData "question");
     ("answer", field cardData "answer");
     ("difficulty", field cardData "difficulty")].

(** The loop over the generated cards: card number [n] on takes the
    identifiers [uuid n], [uuid (n + 1)], ...  The message of the error
    when a parse throws, and the store at that point. *)
Fixpoint create_cards (uuid : nat → string) (n : nat) (set : obj)
    (generatedCards : list obj) (st : MemStorage) : option string * MemStorage :=
  match generatedCards with
  | [] => (None, st)
  | cardData :: rest =>
      match parseCard (card_input set cardData) with
      | inl message => (Some message, st)
      | inr flashcardData =>
          create_cards uuid (S n) set rest
            (Storage.createFlashcard (uuid n) flashcardData st).2
      end
  end.

(** The object given to [insertFlashcardSetSchema.parse]. *)
Definition set_input (document : obj) (generatedCards : list obj) : obj :=
  with_props ∅
    [("userId", field document "userId");
     ("documentId", field document "id");
     ("title", VStr (to_string (field document "title") +:+ " - Flashcards"));
     ("description",
      VStr ("Generated flashcards from " +:+ to_string (field document "title")));
     ("cardCount", VNum (Z.of_nat (length generatedCards)))].

(** The handler.  [documentId] is [req.body.documentId]; [generated] is
    what [generateFlashcardsFromContent] comes back with, the cards or the
    message of the error it throws; [setId], [now] and [uuid] are the
    identifiers and the time drawn on the way. *)
Definition post_flashcard_sets_generate (documentId : string)
    (generated : string + list obj) (setId : string) (now : Z)
    (uuid : nat → string) (st : MemStorage) : response * MemStorage :=
  match Storage.getDocument documentId st with
  | None => (res_status_json 404 "Document not found", st)
  | Some document =>
      let failed message :=
        res_status_json 500 ("Failed to generate flashcards: " +:+ message) in
      match generated with
      | inl message => (failed message, st)
      | inr generatedCards =>
          match parseSet (set_input document generatedCards) with
          | inl message => (failed message, st)
          | inr setData =>
              let '(set, st1) := Storage.createFlashcardSet setId now setData st in
              match create_cards uuid 0 set generatedCards st1 with
              | (Some message, st2) => (failed message, st2)
              | (None, st2) => (res_json set, st2)
              end
          end
      end
  end.
End Generate.

(** A store with one document, two generated cards of which the second
    has no question, and parsers that accept an object unless it is a
    card without a string for question. *)
Definition sample_document_store : MemStorage :=
  (Storage.createDocument "d1" 0
     (with_props ∅ [("userId", VStr "demo-user"); ("title", VStr "Doc");
                    ("content", VStr "text")])
     new_MemStorage).2.
Definition good_card : obj :=
  with_props ∅ [("question", VStr "q"); ("answer", VStr "a");
                ("difficulty", VStr "easy")].
Definition bad_card : obj := with_props ∅ [("answer", VStr "a")].
Definition sample_parseSet (o : obj) : string + obj := inr o.
Definition sample_parseCard (o : obj) : string + obj :=
  match field o "question" with
  | VStr _ => inr o
  | _ => inl "question: Required"
  end.
Definition sample_uuid (n : nat) : string := "k" +:+ pretty n.

(** ** Proof steps *)

(** With [H : op_... T = Some m]: goes through the entity types, drops
    those that have no such method and names the method of the others. *)
Ltac by_method H :=
  match type of H with
  | _ ?T = Some _ =>
      destruct T; simpl in H; try discriminate H; injection H as <-
  end.

(** Solves [(k, v) ∈ l → G k v] for a list [l] written out, by going
    through its entries. *)
Ltac each_entry H tac :=
  repeat (apply elem_of_cons in H as [[= -> ->]|H]; [tac|]);
  by apply elem_of_nil in H.

(** ** Properties of objects and operators *)

Lemma field_insert_eq (o : obj) k v : field (<[k := v]> o) k = v.
Proof. unfold field. by rewrite lookup_insert_eq. Qed.

Lemma field_insert_ne (o : obj) k k' v :
  k ≠ k' → field (<[k := v]> o) k' = field o k'.
Proof. intros Hne. unfold field. by rewrite lookup_insert_ne. Qed.

Lemma lookup_spread (base ext : obj) k :
  spread base ext !! k = match ext !! k with Some v => Some v | None => base !! k end.
Proof.
  unfold spread. destruct (ext !! k) as [v|] eqn:E.
  - by apply lookup_union_Some_l.
  - by rewrite lookup_union_r.
Qed.

Lemma field_spread (base ext : obj) k :
  field (spread base ext) k = match ext !! k with Some v => v | None => field base k end.
Proof. unfold field. rewrite lookup_spread. by destruct (ext !! k). Qed.

Lemma strict_eq_str_true v s : strict_eq_str v s = true ↔ v = VStr s.
Proof.
  destruct v; simpl; try (split; [discriminate | congruence]).
  rewrite bool_decide_eq_true. split; [by intros -> | congruence].
Qed.

(** Up to 2^53 in magnitude an integer is a double. *)
Lemma number_of_Z_exact z :
  - 2 ^ 53 ≤ z ≤ 2 ^ 53 → number_of_Z z = Finite z.
Proof.
  intros Hz.
  assert (Hbig : 2 ^ 53 < 2 ^ 1024) by (apply Z.pow_lt_mono_r; lia).
  assert (Hround : round_to_double z = z).
  { unfold round_to_double. destruct (Z.ltb_spec (Z.abs z) (2 ^ 53)); [done|].
    assert (Hends : z = 2 ^ 53 ∨ z = - 2 ^ 53) by lia.
    destruct Hends as [->| ->]; reflexivity. }
  unfold number_of_Z. rewrite Hround.
  destruct (Z.leb_spec (2 ^ 1024) (Z.abs z)); [lia|done].
Qed.

(** At 2^53 adding one changes nothing: 2^53 + 1 is half way between two
    doubles and rounds to the even one, 2^53. *)
Lemma number_of_Z_stuck : number_of_Z (2 ^ 53 + 1) = Finite (2 ^ 53).
Proof. reflexivity. Qed.

(** On a counter, [(v || 0) + 1] is the count plus one, except that it
    stays at 2^53. *)
Lemma next_count `{!Host} v :
  is_count v = true →
  js_add (js_or v (VNum 0)) (VNum 1) = VNum (Z.min (count_of v + 1) (2 ^ 53)).
Proof.
  destruct v as [| |b|n|b| |s|t|l|l]; simpl; try done.
  intros [Hlo Hhi]%andb_true_iff. apply Z.leb_le in Hlo, Hhi.
  unfold js_or. simpl. destruct (Z.eqb_spec n 0) as [->|Hn]; [done|].
  unfold js_add. simpl.
  destruct (decide (n = 2 ^ 53)) as [->|Hne].
  - by rewrite number_of_Z_stuck.
  - rewrite number_of_Z_exact by lia. simpl. f_equal. lia.
Qed.

(** A counter of 2^53 is sent on as 2^53. *)
Example counter_stays_at_2_53 :
  js_add (H := sample_host) (js_or (VNum (2 ^ 53)) (VNum 0)) (VNum 1) = VNum (2 ^ 53).
Proof. reflexivity. Qed.

(** Below 2^53 it is the count plus one. *)
Lemma next_count_safe `{!Host} v :
  is_count v = true →
  count_of v < 2 ^ 53 →
  js_add (js_or v (VNum 0)) (VNum 1) = VNum (count_of v + 1).
Proof.
  intros Hn Hlt. rewrite next_count by done. f_equal. lia.
Qed.

Lemma next_count_is_count v :
  is_count v = true →
  is_count (VNum (Z.min (count_of v + 1) (2 ^ 53))) = true ∧
  count_of v ≤ Z.min (count_of v + 1) (2 ^ 53).
Proof.
  intros Hn. simpl.
  assert (- 2 ^ 53 ≤ count_of v ≤ 2 ^ 53).
  { destruct v; simpl in *; try done; lia. }
  split; [|lia].
  apply andb_true_iff. split; apply Z.leb_le; lia.
Qed.

(** ** Properties of the store's state *)

Lemma set_documents_id st : set_documents (documents st) st = st.
Proof. by destruct st. Qed.
Lemma set_notes_id st : set_notes (notes st) st = st.
Proof. by destruct st. Qed.

(** ** The review interval *)

(** The milliseconds added for a rating. *)
Lemma next_review_time now d :
  Qtrunc (inject_Z now + interval_days d * 24 * 60 * 60 * 1000)%Q =
  now + (if strict_eq_str d "easy" then 259200000
         else if strict_eq_str d "medium" then 86400000
         else 43200000).
Proof.
  unfold Qtrunc, interval_days.
  destruct (strict_eq_str d "easy"); [|destruct (strict_eq_str d "medium")];
    cbn; symmetry; apply Z.quot_unique_exact; lia.
Qed.

Lemma review_updates_lookup `{!Host} now card d k :
  review_updates now card d !! k =
    if decide (k = "repetitions") then
      Some (js_add (js_or (field card "repetitions") (VNum 0)) (VNum 1))
    else if decide (k = "nextReview") then
      Some (VDate (now + (if strict_eq_str d "easy" then 259200000
                          else if strict_eq_str d "medium" then 86400000
                          else 43200000)))
    else if decide (k = "lastReviewed") then Some (VDate now)
    else if decide (k = "difficulty") then Some d
    else None.
Proof.
  unfold review_updates, with_props, new_Date. simpl.
  rewrite next_review_time.
  repeat (case_decide; [subst k; by simplify_map_eq|]).
  by simplify_map_eq.
Qed.

(** A review whose request names a stored card merges the computed update
    over it. *)
Lemma reviewCard_found `{!Host} now cards idx card id stored d st :
  cards !! idx = Some card →
  field card "id" = VStr id →
  flashcards st !! id = Some stored →
  reviewCard now (Some cards) idx d st =
    (Some (res_json (spread stored (review_updates now card d))),
     set_flashcards
       (<[id := spread stored (review_updates now card d)]> (flashcards st)) st).
Proof.
  intros Hc Hid Hst.
  unfold reviewCard, handleDifficultyRating, put_flashcard, Storage.updateFlashcard.
  rewrite Hc. simpl. rewrite Hid. simpl. by rewrite Hst.
Qed.

(** A review whose request names no stored card answers 404 and leaves the
    store as it was. *)
Lemma reviewCard_missing `{!Host} now cards idx card d st :
  cards !! idx = Some card →
  flashcards st !! to_string (field card "id") = None →
  reviewCard now (Some cards) idx d st =
    (Some (res_status_json 404 "Flashcard not found"), st).
Proof.
  intros Hc Hst.
  unfold reviewCard, handleDifficultyRating, put_flashcard, Storage.updateFlashcard.
  rewrite Hc. simpl. by rewrite Hst.
Qed.

(** ** Reviews *)

(** C1.  A review with one of the three ratings, made at the instant
    [now], stores the card with [nextReview] at [now] plus the rating's
    interval (3 days for easy, 1 day for medium, half a day for hard, a
    day being 86400 seconds, here in milliseconds), [lastReviewed] at
    [now] and [difficulty] the rating given, whatever the card held
    before. *)
Theorem review_sets_schedule `{!Host} (r : rating) now cards idx card id stored st :
  cards !! idx = Some card →
  field card "id" = VStr id →
  flashcards st !! id = Some stored →
  ∃ updated st' t,
    reviewCard now (Some cards) idx (VStr (rating_name r)) st
      = (Some (res_json updated), st') ∧
    flashcards st' !! id = Some updated ∧
    field updated "nextReview" = VDate t ∧
    (inject_Z t == inject_Z now + rating_days r * 86400 * 1000)%Q ∧
    field updated "lastReviewed" = VDate now ∧
    field updated "difficulty" = VStr (rating_name r).
Proof.
  intros Hc Hid Hst.
  eexists _, _, _. split; [by apply reviewCard_found|].
  split; [simpl; by rewrite lookup_insert_eq|].
  rewrite !field_spread, !review_updates_lookup. simpl.
  split; [reflexivity|].
  split; [|done].
  destruct r; simpl; unfold Qeq; simpl; lia.
Qed.

Example utc_midnight_values :
  utc_midnight 1970 1 1 = 0 ∧
  t_2024_01_01 = 1704067200000 ∧
  t_2024_01_04 = 1704326400000.
Proof. repeat split. Qed.

(** The scenario of the specification: a fresh card rated easy at
    2024-01-01T00:00:00Z. *)
Lemma review_sets_schedule_witness :
  ∃ updated st' t,
    reviewCard (H := sample_host) t_2024_01_01 (Some [sample_card]) 0
        (VStr "easy") sample_store
      = (Some (res_json updated), st') ∧
    flashcards st' !! "c1" = Some updated ∧
    field updated "nextReview" = VDate t ∧
    (inject_Z t == inject_Z t_2024_01_01 + 3 * 86400 * 1000)%Q ∧
    field updated "lastReviewed" = VDate t_2024_01_01 ∧
    field updated "difficulty" = VStr "easy".
Proof.
  apply (review_sets_schedule (H := sample_host) Easy t_2024_01_01
           [sample_card] 0%nat sample_card "c1" sample_card sample_store);
    reflexivity.
Defined.

Example review_easy_2024_01_01 :
  let st' := (reviewCard (H := sample_host) t_2024_01_01
                (Some [sample_card]) 0 (VStr "easy") sample_store).2 in
  field sample_card "repetitions" = VNum 0 ∧
  field sample_card "lastReviewed" = VNull ∧
  ∃ updated,
    flashcards st' !! "c1" = Some updated ∧
    field updated "lastReviewed" = VDate t_2024_01_01 ∧
    field updated "nextReview" = VDate t_2024_01_04 ∧
    field updated "repetitions" = VNum 1 ∧
    field updated "difficulty" = VStr "easy".
Proof.
  split; [reflexivity|]. split; [reflexivity|].
  eexists. split; [reflexivity|].
  repeat split.
Qed.

(** C2.  A difficulty that is neither "easy" nor "medium" (any string, or
    any other value) is not rejected: the interval is the hard one, half a
    day, and a review of a stored card is answered with the updated card,
    whose [nextReview] is [now] plus 43200 seconds. *)
Theorem unknown_difficulty_reviews_as_hard `{!Host} (d : value)
    now cards idx card id stored st :
  strict_eq_str d "easy" = false →
  strict_eq_str d "medium" = false →
  cards !! idx = Some card →
  field card "id" = VStr id →
  flashcards st !! id = Some stored →
  interval_days d = interval_days (VStr "hard") ∧
  interval_days d = 0.5%Q ∧
  ∃ updated st',
    reviewCard now (Some cards) idx d st = (Some (res_json updated), st') ∧
    flashcards st' !! id = Some updated ∧
    field updated "nextReview" = VDate (now + 43200 * 1000).
Proof.
  intros He Hm Hc Hid Hst.
  split; [unfold interval_days; by rewrite He, Hm|].
  split; [unfold interval_days; by rewrite He, Hm|].
  eexists _, _. split; [by apply reviewCard_found|].
  split; [simpl; by rewrite lookup_insert_eq|].
  rewrite !field_spread, !review_updates_lookup. simpl.
  by rewrite He, Hm.
Qed.

Lemma unknown_difficulty_reviews_as_hard_witness :
  interval_days (VStr "impossible") = interval_days (VStr "hard") ∧
  interval_days (VStr "impossible") = 0.5%Q ∧
  ∃ updated st',
    reviewCard (H := sample_host) t_2024_01_01 (Some [sample_card]) 0
        (VStr "impossible") sample_store
      = (Some (res_json updated), st') ∧
    flashcards st' !! "c1" = Some updated ∧
    field updated "nextReview" = VDate (t_2024_01_01 + 43200 * 1000).
Proof.
  apply (unknown_difficulty_reviews_as_hard (H := sample_host)
           (VStr "impossible") t_2024_01_01 [sample_card] 0%nat sample_card
           "c1" sample_card sample_store);
    reflexivity.
Defined.

(** Reviews of other cards leave a card as it is. *)
Lemma reviewCard_other `{!Host} now cards idx card id d st id' :
  cards !! idx = Some card →
  field card "id" = VStr id →
  id ≠ id' →
  flashcards (reviewCard now (Some cards) idx d st).2 !! id' = flashcards st !! id'.
Proof.
  intros Hc Hid Hne.
  destruct (flashcards st !! id) as [stored|] eqn:Hst.
  - rewrite (reviewCard_found _ _ _ _ _ _ _ _ Hc Hid Hst). simpl.
    by rewrite lookup_insert_ne.
  - rewrite (reviewCard_missing _ _ _ _ _ _ Hc); [done|].
    by rewrite Hid.
Qed.

Lemma review_counts `{!Host} now cards idx card id stored d st :
  cards !! idx = Some card →
  field card "id" = VStr id →
  flashcards st !! id = Some stored →
  is_count (field card "repetitions") = true →
  ∃ updated,
    flashcards (reviewCard now (Some cards) idx d st).2 !! id = Some updated ∧
    field updated "repetitions" =
      VNum (Z.min (count_of (field card "repetitions") + 1) (2 ^ 53)).
Proof.
  intros Hc Hid Hst Hn.
  rewrite (reviewCard_found _ _ _ _ _ _ _ _ Hc Hid Hst). simpl.
  eexists. split; [by rewrite lookup_insert_eq|].
  rewrite field_spread, review_updates_lookup. simpl.
  by apply next_count.
Qed.

(** C3, as the code has it.  A review sets the stored [repetitions] of
    the card to the counter of the copy of the card the view holds plus
    one ([null] or absent counting as 0, for a counter below 2^53),
    whatever rating is given and whatever the card had stored; when the
    copy is the card as stored this is the stored counter plus one, and
    over any sequence of reviews each made from the card as stored the
    counter of a card never goes down. *)
Theorem review_counts_from_copy `{!Host} :
  (∀ now cards idx card id stored d st,
     cards !! idx = Some card →
     field card "id" = VStr id →
     flashcards st !! id = Some stored →
     is_count (field card "repetitions") = true →
     count_of (field card "repetitions") < 2 ^ 53 →
     ∃ updated,
       flashcards (reviewCard now (Some cards) idx d st).2 !! id = Some updated ∧
       field updated "repetitions" = VNum (count_of (field card "repetitions") + 1)) ∧
  (∀ st st' id card,
     rtc review_step st st' →
     flashcards st !! id = Some card →
     is_count (field card "repetitions") = true →
     ∃ card',
       flashcards st' !! id = Some card' ∧
       is_count (field card' "repetitions") = true ∧
       count_of (field card "repetitions") ≤ count_of (field card' "repetitions")).
Proof.
  split.
  { intros now cards idx card id stored d st Hc Hid Hst Hn Hlt.
    destruct (review_counts now cards idx card id stored d st Hc Hid Hst Hn)
      as (updated & Hup & Hrep).
    exists updated. split; [done|]. rewrite Hrep. f_equal. lia. }
  intros st st' id card Hsteps. revert card.
  induction Hsteps as [st|st st1 st' Hstep _ IH]; intros card Hst Hn.
  - exists card. split; [done|]. split; [done|lia].
  - destruct Hstep as [now cards idx rated rid d st Hc Hid Hrated].
    destruct (decide (rid = id)) as [->|Hne].
    + assert (rated = card) as -> by congruence.
      destruct (review_counts now cards idx card id card d st Hc Hid Hst Hn)
        as (updated & Hup & Hrep).
      destruct (next_count_is_count _ Hn) as [Hn1 Hle1].
      destruct (IH updated Hup) as (card' & Hst' & Hn' & Hle).
      { by rewrite Hrep. }
      exists card'. split; [done|]. split; [done|].
      rewrite Hrep in Hle. simpl in Hle. lia.
    + apply (IH card); [|done].
      by rewrite (reviewCard_other _ _ _ _ _ _ _ _ Hc Hid Hne).
Qed.

(** A card at 3 repetitions, rated hard, goes to 4. *)
Lemma review_counts_from_copy_witness :
  let card3 := <["repetitions" := VNum 3]> sample_card in
  let st3 := set_flashcards {["c1" := card3]} new_MemStorage in
  ∃ updated,
    flashcards (reviewCard (H := sample_host) t_2024_01_01 (Some [card3]) 0
                  (VStr "hard") st3).2 !! "c1" = Some updated ∧
    field updated "repetitions" = VNum (3 + 1).
Proof.
  intros card3 st3.
  apply (proj1 (review_counts_from_copy (H := sample_host))
           t_2024_01_01 [card3] 0%nat card3 "c1" card3 (VStr "hard") st3);
    reflexivity.
Defined.

(** C3 as stated fails.  A review computes the counter from the copy the
    view holds, not from the store: after two reviews the stored counter
    of the sample card is 2, and a third review made from the copy fetched
    before the first stores 1, which is neither the stored counter plus
    one nor at least the stored counter. *)
Lemma stale_copy_breaks_count :
  ¬ review_adds_one_to_stored (H := sample_host) ∧
  ¬ repetitions_never_decrease (H := sample_host).
Proof.
  split.
  - intros Hall.
    destruct (Hall 30 [sample_card] 0%nat sample_card "c1" _ (VStr "easy")
                reviewed_twice eq_refl eq_refl eq_refl) as (updated & Hup & Hrep).
    injection Hup as <-. vm_compute in Hrep. discriminate Hrep.
  - intros Hall.
    assert (Hstep : rtc (review_from_copy (H := sample_host))
                      reviewed_twice reviewed_stale).
    { apply rtc_once.
      apply (ReviewFromCopy 30 (Some [sample_card]) 0%nat (VStr "easy")). }
    specialize (Hall reviewed_twice reviewed_stale "c1" _ _ Hstep eq_refl eq_refl).
    vm_compute in Hall. by apply Hall.
Qed.

(** What a review does to the store: nothing, or one stored card is
    replaced by itself with the computed update merged over it. *)
Lemma reviewCard_cases `{!Host} now currentCards idx d st :
  (reviewCard now currentCards idx d st).2 = st ∨
  ∃ card key stored,
    flashcards st !! key = Some stored ∧
    (reviewCard now currentCards idx d st).2 =
      set_flashcards
        (<[key := spread stored (review_updates now card d)]> (flashcards st)) st.
Proof.
  unfold reviewCard, handleDifficultyRating.
  destruct currentCards as [cards|]; [|by left].
  destruct (cards !! idx) as [card|]; [|by left].
  unfold put_flashcard, Storage.updateFlashcard. simpl.
  destruct (flashcards st !! to_string (field card "id")) as [stored|] eqn:Hst;
    [|by left].
  right. by exists card, (to_string (field card "id")), stored.
Qed.

Lemma reviewed_ordered `{!Host} now card d stored :
  review_ordered (spread stored (review_updates now card d)).
Proof.
  intros a b. rewrite !field_spread, !review_updates_lookup. simpl.
  intros [= <-] [= <-].
  destruct (strict_eq_str d "easy"); [|destruct (strict_eq_str d "medium")]; lia.
Qed.

Lemma js_or_null_date a t : js_or a VNull = VDate t → a = VDate t.
Proof. unfold js_or. by destruct (truthy a). Qed.

Lemma created_ordered id payload st :
  review_ordered payload →
  review_ordered (Storage.createFlashcard id payload st).1.
Proof.
  intros Hp a b. unfold Storage.createFlashcard, with_props. simpl.
  rewrite !field_insert_ne, !field_insert_eq by done.
  rewrite !field_insert_ne, !field_insert_eq by done.
  intros Ha%js_or_null_date Hb%js_or_null_date. by apply Hp.
Qed.

(** C4, as the code has it.  In a store reached by creating flashcards
    from payloads whose own review timestamps are in order (in particular
    from payloads without them) and by reviews, every card with both
    [lastReviewed] and [nextReview] set has [nextReview] strictly after
    [lastReviewed]. *)
Theorem reviews_keep_order `{!Host} st :
  reachable review_ordered st → store_ordered st.
Proof.
  induction 1 as [|id payload st _ IH Hp|now cards idx d st _ IH].
  - intros id card. simpl. by rewrite lookup_empty.
  - intros id' card. simpl.
    destruct (decide (id = id')) as [->|Hne].
    + rewrite lookup_insert_eq. intros [= <-].
      by apply (created_ordered id' payload st).
    + rewrite lookup_insert_ne by done. apply IH.
  - destruct (reviewCard_cases now cards idx d st)
      as [->|(card & key & stored & Hst & ->)]; [done|].
    intros id' card'. simpl.
    destruct (decide (key = id')) as [->|Hne].
    + rewrite lookup_insert_eq. intros [= <-]. apply reviewed_ordered.
    + rewrite lookup_insert_ne by done. apply IH.
Qed.

Lemma sample_payload_ordered : review_ordered sample_payload.
Proof. intros a b Ha. discriminate Ha. Qed.

Lemma reviews_keep_order_witness :
  store_ordered
    (reviewCard (H := sample_host) t_2024_01_01 (Some [sample_card]) 0
       (VStr "easy") sample_store).2.
Proof.
  apply (reviews_keep_order (H := sample_host)).
  apply reach_review.
  apply (reach_create review_ordered "c1" sample_payload new_MemStorage).
  - apply reach_new.
  - exact sample_payload_ordered.
Defined.

(** C4 as stated fails: creation stores the timestamps of its payload as
    they are, so a card created with [nextReview] before [lastReviewed] is
    in the store with both set and out of order. *)
Lemma creation_can_break_order :
  ¬ (∀ st, reachable (H := sample_host) (λ _, True) st → store_ordered st).
Proof.
  intros Hall.
  pose (st := (Storage.createFlashcard "c2" backwards_payload new_MemStorage).2).
  assert (Hr : reachable (H := sample_host) (λ _, True) st).
  { apply reach_create; [apply reach_new | exact I]. }
  specialize (Hall st Hr "c2" _ eq_refl t_2024_01_04 t_2024_01_01 eq_refl eq_refl).
  vm_compute in Hall. discriminate Hall.
Qed.

(** ** Creation and lookup *)

Lemma created_id (T : entity) id now payload st :
  field (op_create T id now payload st).1 "id" = VStr id.
Proof.
  destruct T; unfold op_create, with_props; simpl;
    rewrite !field_insert_ne by done; apply field_insert_eq.
Qed.

Lemma created_stored (T : entity) id now payload st :
  collection T (op_create T id now payload st).2 !! id =
    Some (op_create T id now payload st).1.
Proof. destruct T; simpl; apply lookup_insert_eq. Qed.

(** C5.  The record [create] returns carries the generated id, and reading
    that id back gives the record itself: through the type's getter where
    [IStorage] has one, and in every case in the collection that getters
    and updates read. *)
Theorem create_then_get (T : entity) id now payload st :
  let created := (op_create T id now payload st).1 in
  let st' := (op_create T id now payload st).2 in
  field created "id" = VStr id ∧
  collection T st' !! id = Some created ∧
  ∀ get, op_get T = Some get → get id st' = Some created.
Proof.
  split; [apply created_id|]. split; [apply created_stored|].
  intros get Hget.
  pose proof (created_stored T id now payload st) as Hst.
  by by_method Hget.
Qed.

Lemma create_then_get_witness :
  let created := (op_create Note "n1" 0 sample_note_payload new_MemStorage).1 in
  let st' := (op_create Note "n1" 0 sample_note_payload new_MemStorage).2 in
  Storage.getNote "n1" st' = Some created.
Proof.
  intros created st'.
  apply (create_then_get Note "n1" 0 sample_note_payload new_MemStorage).
  reflexivity.
Defined.

(** ** Absent identifiers *)

Lemma map_delete_absent id (m : gmap string obj) :
  m !! id = None → map_delete id m = (false, m).
Proof.
  intros Hm. unfold map_delete. f_equal.
  - apply bool_decide_eq_false. rewrite Hm. by intros [? ?].
  - by apply delete_id.
Qed.

Lemma deleted_absent (T : entity) del id st :
  op_delete T = Some del → collection T (del id st).2 !! id = None.
Proof.
  intros Hdel. by_method Hdel; simpl; apply lookup_delete_eq.
Qed.

(** C6.  For an id that is not in the collection of its type, the getter
    finds nothing, the update returns nothing, the deletion returns false
    and a review is answered 404, each leaving the store exactly as it
    was; and an id that has just been deleted is such an id. *)
Theorem absent_id_not_found `{!Host} (T : entity) id :
  (∀ st,
     collection T st !! id = None →
     (∀ get, op_get T = Some get → get id st = None) ∧
     (∀ update now updates,
        op_update T = Some update → update id now updates st = (None, st)) ∧
     (∀ del, op_delete T = Some del → del id st = (false, st)) ∧
     (T = Flashcard →
      ∀ now cards idx card d,
        cards !! idx = Some card →
        to_string (field card "id") = id →
        reviewCard now (Some cards) idx d st =
          (Some (res_status_json 404 "Flashcard not found"), st))) ∧
  (∀ del st,
     op_delete T = Some del → collection T (del id st).2 !! id = None).
Proof.
  split; [|intros del st Hdel; by apply deleted_absent].
  intros st Habs. repeat split.
  - intros get Hget. by by_method Hget.
  - intros update now updates Hup. by_method Hup; simpl in Habs.
    + unfold Storage.updateUser. by rewrite Habs.
    + unfold Storage.updateNote. by rewrite Habs.
    + unfold Storage.updateFlashcard. by rewrite Habs.
  - intros del Hdel. by_method Hdel; simpl in Habs.
    + unfold Storage.deleteDocument. rewrite (map_delete_absent _ _ Habs).
      by rewrite set_documents_id.
    + unfold Storage.deleteNote. rewrite (map_delete_absent _ _ Habs).
      by rewrite set_notes_id.
  - intros -> now cards idx card d Hc <-.
    by apply (reviewCard_missing _ _ _ card).
Qed.

(** Deleting a note twice: the second call removes nothing. *)
Lemma absent_id_not_found_witness :
  Storage.deleteNote "n1" (Storage.deleteNote "n1" sample_note_store).2
    = (false, (Storage.deleteNote "n1" sample_note_store).2).
Proof.
  apply (proj1 (absent_id_not_found (H := sample_host) Note "n1")
           (Storage.deleteNote "n1" sample_note_store).2);
    reflexivity.
Defined.

(** ** Updates *)

(** What an update stores: the record under the same key, with the
    properties of the partial laid over the old ones and, for a note,
    [updatedAt] set to the time of the update over both. *)
Lemma update_stored (T : entity) update id now updates st old :
  op_update T = Some update →
  collection T st !! id = Some old →
  ∃ new,
    (update id now updates st).1 = Some new ∧
    collection T (update id now updates st).2 !! id = Some new ∧
    ∀ g, new !! g =
      if bool_decide (T = Note ∧ g = "updatedAt") then Some (VDate now)
      else match updates !! g with Some v => Some v | None => old !! g end.
Proof.
  intros Hup Hold. by_method Hup; simpl in Hold.
  - unfold Storage.updateUser. rewrite Hold. simpl.
    eexists. split; [done|]. split; [by rewrite lookup_insert_eq|].
    intros g. apply lookup_spread.
  - unfold Storage.updateNote. rewrite Hold. simpl.
    eexists. split; [done|]. split; [by rewrite lookup_insert_eq|].
    intros g. unfold with_props. simpl.
    destruct (decide (g = "updatedAt")) as [->|Hne].
    + rewrite bool_decide_eq_true_2 by done. by rewrite lookup_insert_eq.
    + rewrite bool_decide_eq_false_2 by (by intros [_ ?]).
      rewrite lookup_insert_ne by done. apply lookup_spread.
  - unfold Storage.updateFlashcard. rewrite Hold. simpl.
    eexists. split; [done|]. split; [by rewrite lookup_insert_eq|].
    intros g. apply lookup_spread.
Qed.

(** C7, as the code has it.  An update with the one property [f] gives
    [f] the new value and keeps every other property of the stored record,
    except that the update of a note also sets [updatedAt] to the time of
    the update (also when [f] is [updatedAt] itself). *)
Theorem update_changes_one_field (T : entity) update id now f v st old :
  op_update T = Some update →
  collection T st !! id = Some old →
  ∃ new,
    (update id now {[f := v]} st).1 = Some new ∧
    collection T (update id now {[f := v]} st).2 !! id = Some new ∧
    (∀ g, g ≠ f → ¬ (T = Note ∧ g = "updatedAt") → new !! g = old !! g) ∧
    (¬ (T = Note ∧ f = "updatedAt") → new !! f = Some v) ∧
    (T = Note → new !! "updatedAt" = Some (VDate now)).
Proof.
  intros Hup Hold.
  destruct (update_stored T update id now {[f := v]} st old Hup Hold)
    as (new & Hres & Hst & Hnew).
  exists new. split; [done|]. split; [done|]. repeat split.
  - intros g Hg Hn. rewrite Hnew, bool_decide_eq_false_2 by done.
    by rewrite lookup_singleton_ne.
  - intros Hn. rewrite Hnew, bool_decide_eq_false_2 by done.
    by rewrite lookup_singleton_eq.
  - intros ->. by rewrite Hnew, bool_decide_eq_true_2.
Qed.

(** Re-titling the sample note keeps its content. *)
Lemma update_changes_one_field_witness :
  ∃ old new,
    notes sample_note_store !! "n1" = Some old ∧
    notes (Storage.updateNote "n1" 5 {["title" := VStr "t2"]} sample_note_store).2
      !! "n1" = Some new ∧
    new !! "content" = old !! "content" ∧
    new !! "title" = Some (VStr "t2") ∧
    new !! "updatedAt" = Some (VDate 5).
Proof.
  eexists.
  destruct (update_changes_one_field Note Storage.updateNote "n1" 5 "title"
              (VStr "t2") sample_note_store _ eq_refl eq_refl)
    as (new & _ & Hst & Hframe & Hf & Hu).
  exists new. split; [reflexivity|]. split; [exact Hst|].
  split; [apply Hframe; [discriminate | intros [_ ?]; discriminate]|].
  split; [apply Hf; intros [_ ?]; discriminate | by apply Hu].
Defined.

(** C7 as stated fails for notes: an update of the title moves
    [updatedAt] as well. *)
Lemma note_update_touches_updatedAt : ¬ update_changes_only_field Note.
Proof.
  intros Hall.
  destruct (Hall Storage.updateNote "n1" 5 "title" (VStr "t2")
              sample_note_store _ eq_refl eq_refl) as (new & Hst & Hframe).
  injection Hst as <-.
  specialize (Hframe "updatedAt"). vm_compute in Hframe.
  by specialize (Hframe ltac:(discriminate)).
Qed.

(** C8, as the code has it.  The [id] of a created record is the one the
    store generated, whatever the payload holds; an update stores the
    record under the same key and leaves its [id] property as it was
    unless the partial has an [id] property, which then replaces it. *)
Theorem id_kept_unless_supplied (T : entity) :
  (∀ id now payload st,
     field (op_create T id now payload st).1 "id" = VStr id) ∧
  (∀ update id now updates st old,
     op_update T = Some update →
     collection T st !! id = Some old →
     ∃ new,
       collection T (update id now updates st).2 !! id = Some new ∧
       new !! "id" = match updates !! "id" with
                     | Some v => Some v
                     | None => old !! "id"
                     end).
Proof.
  split; [intros; apply created_id|].
  intros update id now updates st old Hup Hold.
  destruct (update_stored T update id now updates st old Hup Hold)
    as (new & _ & Hst & Hnew).
  exists new. split; [done|].
  rewrite Hnew. by rewrite bool_decide_eq_false_2 by (by intros [_ ?]).
Qed.

(** A review of the sample card does not touch its [id]. *)
Lemma id_kept_unless_supplied_witness :
  ∃ new,
    flashcards
      (Storage.updateFlashcard "c1" {["difficulty" := VStr "hard"]} sample_store).2
      !! "c1" = Some new ∧
    new !! "id" = sample_card !! "id".
Proof.
  destruct (proj2 (id_kept_unless_supplied Flashcard)
              (λ id _ updates, Storage.updateFlashcard id updates) "c1" 0
              {["difficulty" := VStr "hard"]} sample_store sample_card
              eq_refl eq_refl) as (new & Hst & Hid).
  exists new. split; [exact Hst | exact Hid].
Defined.

(** C8 as stated fails: a partial with an [id] property overwrites the
    [id] of the stored record. *)
Lemma update_can_overwrite_id : ¬ update_keeps_id Flashcard.
Proof.
  intros Hall.
  destruct (Hall (λ id _ updates, Storage.updateFlashcard id updates) "c1" 0
              {["id" := VStr "other"]} sample_store _ eq_refl eq_refl)
    as (new & Hst & Hid).
  injection Hst as <-. vm_compute in Hid. discriminate Hid.
Qed.

(** ** Listings *)

Lemma filter_values {A B} (f : B → bool) (l : list (A * B)) :
  List.filter f l.*2 = (List.filter (λ kv, f kv.2) l).*2.
Proof.
  induction l as [|[k x] l IH]; [done|].
  rewrite !fmap_cons. simpl. rewrite IH.
  by destruct (f x).
Qed.

Lemma elem_of_filter {A} (f : A → bool) (l : list A) x :
  x ∈ List.filter f l ↔ x ∈ l ∧ f x = true.
Proof. rewrite !list_elem_of_In. apply filter_In. Qed.

Lemma NoDup_filter_keys {A B} (f : A * B → bool) (l : list (A * B)) :
  NoDup l.*1 → NoDup (List.filter f l).*1.
Proof.
  induction l as [|[k x] l IH]; [done|].
  rewrite fmap_cons. simpl.
  intros [Hk Hl]%NoDup_cons. destruct (f (k, x)); [|by apply IH].
  rewrite fmap_cons. simpl. apply NoDup_cons. split; [|by apply IH].
  intros ([k' x'] & -> & [Hin _]%elem_of_filter)%list_elem_of_fmap.
  apply Hk. apply list_elem_of_fmap. by exists (k', x').
Qed.

(** The result of a filtered listing entry by entry: there is a list of
    distinct keys, exactly those of the matching entries, of which the
    result holds the records in turn. *)
Lemma values_where_exact k v (m : gmap string obj) :
  ∃ ids,
    NoDup ids ∧
    (∀ id, id ∈ ids ↔ ∃ r, m !! id = Some r ∧ field r k = VStr v) ∧
    Forall2 (λ id r, m !! id = Some r) ids (values_where k v m).
Proof.
  unfold values_where, values.
  rewrite (filter_values (λ x, strict_eq_str (field x k) v)).
  set (f := λ kv : string * obj, strict_eq_str (field kv.2 k) v).
  exists (List.filter f (map_to_list m)).*1. split; [|split].
  - apply NoDup_filter_keys, NoDup_fst_map_to_list.
  - intros id. rewrite list_elem_of_fmap. split.
    + intros ([id' r] & -> & [Hin Hf]%elem_of_filter).
      exists r. split; [by apply elem_of_map_to_list|].
      by apply strict_eq_str_true.
    + intros (r & Hr & Hf). exists (id, r). split; [done|].
      apply elem_of_filter. split; [by apply elem_of_map_to_list|].
      by apply strict_eq_str_true.
  - assert (Hall : Forall (λ kv, m !! kv.1 = Some kv.2)
                     (List.filter f (map_to_list m))).
    { apply Forall_forall. intros [id r] [Hin _]%elem_of_filter.
      by apply elem_of_map_to_list. }
    induction Hall as [|[id r] l Hkv _ IH]; simpl; by constructor.
Qed.

Lemma elem_of_values_where k v (m : gmap string obj) r :
  r ∈ values_where k v m ↔ ∃ id, m !! id = Some r ∧ field r k = VStr v.
Proof.
  unfold values_where, values. rewrite elem_of_filter, list_elem_of_fmap.
  rewrite strict_eq_str_true. split.
  - intros (([id r'] & -> & Hin) & Hf). exists id. split; [|done].
    by apply elem_of_map_to_list.
  - intros (id & Hr & Hf). split; [|done]. exists (id, r). split; [done|].
    by apply elem_of_map_to_list.
Qed.

Lemma op_listBy_values_where (L : listing) v st :
  op_listBy L v st =
    values_where (listing_field L) v (collection (listing_entity L) st).
Proof. by destruct L. Qed.

(** C9.  A listing by a foreign key returns exactly the stored records of
    its type whose key property is the given value: a record is in the
    result if and only if it is stored and matches, and the result holds
    one record for each matching entry of the collection, in no stated
    order. *)
Theorem listBy_exact (L : listing) (v : string) (st : MemStorage) :
  (∀ r, r ∈ op_listBy L v st ↔
        ∃ id, collection (listing_entity L) st !! id = Some r ∧
              field r (listing_field L) = VStr v) ∧
  ∃ ids,
    NoDup ids ∧
    (∀ id, id ∈ ids ↔
           ∃ r, collection (listing_entity L) st !! id = Some r ∧
                field r (listing_field L) = VStr v) ∧
    Forall2 (λ id r, collection (listing_entity L) st !! id = Some r)
      ids (op_listBy L v st).
Proof.
  rewrite op_listBy_values_where. split.
  - intros r. apply elem_of_values_where.
  - apply values_where_exact.
Qed.

(** Three cards of set "S" and one of set "other": the listing for "S"
    has the three, in some order. *)
Example getFlashcardsBySet_three_of_four :
  let card (setId : string) : obj := with_props ∅ [("setId", VStr setId)] in
  let st1 := (Storage.createFlashcard "a" (card "S") new_MemStorage).2 in
  let st2 := (Storage.createFlashcard "b" (card "other") st1).2 in
  let st3 := (Storage.createFlashcard "c" (card "S") st2).2 in
  let st4 := (Storage.createFlashcard "d" (card "S") st3).2 in
  (λ r, field r "id") <$> Storage.getFlashcardsBySet "S" st4
    ≡ₚ [VStr "a"; VStr "c"; VStr "d"].
Proof.
  vm_compute.
  repeat first
    [ reflexivity
    | apply Permutation_skip
    | etransitivity; [apply Permutation_swap|] ].
Qed.

(** ** Defaults at creation *)

(** C10.  [createFlashcard] replaces by the default every defaulted
    property whose supplied value is falsy, not only those left out: an
    [easinessFactor] of 0 is stored as 250 and an empty [difficulty] as
    "medium"; a truthy value is stored as supplied. *)
Theorem createFlashcard_defaults_on_falsy id (payload : obj) st :
  let card := (Storage.createFlashcard id payload st).1 in
  flashcards (Storage.createFlashcard id payload st).2 !! id = Some card ∧
  (payload !! "easinessFactor" = Some (VNum 0) →
   field card "easinessFactor" = VNum 250) ∧
  (payload !! "difficulty" = Some (VStr "") →
   field card "difficulty" = VStr "medium") ∧
  (∀ k dflt, (k, dflt) ∈ flashcard_defaults →
     field card k = if truthy (field payload k) then field payload k else dflt).
Proof.
  assert (Hgen : ∀ k dflt, (k, dflt) ∈ flashcard_defaults →
            field (Storage.createFlashcard id payload st).1 k =
              if truthy (field payload k) then field payload k else dflt).
  { intros k dflt Hin. unfold Storage.createFlashcard, with_props. simpl.
    unfold flashcard_defaults in Hin.
    repeat (apply elem_of_cons in Hin as [[= -> ->]|Hin];
            [rewrite ?field_insert_ne by done; by rewrite field_insert_eq|]).
    by apply elem_of_nil in Hin. }
  split; [simpl; by rewrite lookup_insert_eq|]. split; [|split; [|done]].
  - intros Hp. rewrite (Hgen "easinessFactor" (VNum 250)).
    + unfold field. by rewrite Hp.
    + unfold flashcard_defaults. set_solver.
  - intros Hp. rewrite (Hgen "difficulty" (VStr "medium")).
    + unfold field. by rewrite Hp.
    + unfold flashcard_defaults. set_solver.
Qed.

Lemma createFlashcard_defaults_on_falsy_witness :
  let payload := with_props sample_payload
                   [("easinessFactor", VNum 0); ("difficulty", VStr "")] in
  let card := (Storage.createFlashcard "c3" payload new_MemStorage).1 in
  field card "easinessFactor" = VNum 250 ∧
  field card "difficulty" = VStr "medium".
Proof.
  intros payload card.
  pose proof (createFlashcard_defaults_on_falsy "c3" payload new_MemStorage)
    as (_ & He & Hd & _).
  split; [apply He | apply Hd]; reflexivity.
Defined.

(** ** Frames of the store's methods *)

Lemma create_other_collection (T T' : entity) id now payload st :
  T' ≠ T → collection T' (op_create T id now payload st).2 = collection T' st.
Proof. intros Hne. by destruct T, T'. Qed.

Lemma create_collection (T : entity) id now payload st :
  collection T (op_create T id now payload st).2 =
    <[id := (op_create T id now payload st).1]> (collection T st).
Proof. by destruct T. Qed.

Lemma update_other_collection (T T' : entity) update id now updates st :
  op_update T = Some update →
  T' ≠ T →
  collection T' (update id now updates st).2 = collection T' st.
Proof.
  intros Hup Hne. by_method Hup.
  - unfold Storage.updateUser. destruct (users st !! id); by destruct T'.
  - unfold Storage.updateNote. destruct (notes st !! id); by destruct T'.
  - unfold Storage.updateFlashcard. destruct (flashcards st !! id); by destruct T'.
Qed.

Lemma update_absent (T : entity) update id now updates st :
  op_update T = Some update →
  collection T st !! id = None →
  update id now updates st = (None, st).
Proof.
  intros Hup Habs. by_method Hup; simpl in Habs.
  - unfold Storage.updateUser. by rewrite Habs.
  - unfold Storage.updateNote. by rewrite Habs.
  - unfold Storage.updateFlashcard. by rewrite Habs.
Qed.

Lemma update_collection (T : entity) update id now updates st old :
  op_update T = Some update →
  collection T st !! id = Some old →
  ∃ new,
    (update id now updates st).1 = Some new ∧
    collection T (update id now updates st).2 = <[id := new]> (collection T st).
Proof.
  intros Hup Hold. by_method Hup; simpl in Hold.
  - unfold Storage.updateUser. rewrite Hold. by eexists.
  - unfold Storage.updateNote. rewrite Hold. by eexists.
  - unfold Storage.updateFlashcard. rewrite Hold. by eexists.
Qed.

Lemma delete_collection (T : entity) del id st :
  op_delete T = Some del →
  del id st =
    (bool_decide (is_Some (collection T st !! id)),
     (del id st).2) ∧
  collection T (del id st).2 = delete id (collection T st).
Proof. intros Hdel. by by_method Hdel. Qed.

Lemma delete_absent (T : entity) del id st :
  op_delete T = Some del →
  collection T st !! id = None →
  del id st = (false, st).
Proof.
  intros Hdel Habs. by_method Hdel; simpl in Habs.
  - unfold Storage.deleteDocument. rewrite (map_delete_absent _ _ Habs).
    by rewrite set_documents_id.
  - unfold Storage.deleteNote. rewrite (map_delete_absent _ _ Habs).
    by rewrite set_notes_id.
Qed.

Lemma delete_other_collection (T T' : entity) del id st :
  op_delete T = Some del →
  T' ≠ T →
  collection T' (del id st).2 = collection T' st.
Proof. intros Hdel Hne. by_method Hdel; by destruct T'. Qed.

(** X1.  A creation touches one entry of one collection: the other
    collections and the other records of its own collection are as
    before, and the identifiers of its collection are those it had and the
    new one. *)
Theorem create_touches_one_entry (T : entity) id now payload st :
  (∀ T', T' ≠ T →
     collection T' (op_create T id now payload st).2 = collection T' st) ∧
  (∀ id', id' ≠ id →
     collection T (op_create T id now payload st).2 !! id' = collection T st !! id') ∧
  dom (collection T (op_create T id now payload st).2) = {[id]} ∪ dom (collection T st).
Proof.
  split; [intros T' Hne; by apply create_other_collection|].
  rewrite create_collection. split.
  - intros id' Hne. by rewrite lookup_insert_ne.
  - apply dom_insert_L.
Qed.

Lemma create_touches_one_entry_witness :
  notes (op_create Flashcard "c9" 0 sample_payload sample_note_store).2
    = notes sample_note_store ∧
  flashcards (op_create Flashcard "c9" 0 sample_payload sample_store).2 !! "c1"
    = flashcards sample_store !! "c1".
Proof.
  pose proof (create_touches_one_entry Flashcard "c9" 0 sample_payload
                sample_note_store) as (Hother & _ & _).
  pose proof (create_touches_one_entry Flashcard "c9" 0 sample_payload
                sample_store) as (_ & Hrec & _).
  split.
  - apply (Hother Note). discriminate.
  - apply Hrec. discriminate.
Defined.

(** X2.  A deletion returns whether the identifier was stored; after it
    the identifier is absent, the other records of the collection and the
    other collections are as before, and a second deletion returns false
    and leaves the store as it is. *)
Theorem delete_removes_one_entry (T : entity) del id st :
  op_delete T = Some del →
  ((del id st).1 = true ↔ is_Some (collection T st !! id)) ∧
  collection T (del id st).2 !! id = None ∧
  (∀ id', id' ≠ id →
     collection T (del id st).2 !! id' = collection T st !! id') ∧
  (∀ T', T' ≠ T → collection T' (del id st).2 = collection T' st) ∧
  del id (del id st).2 = (false, (del id st).2).
Proof.
  intros Hdel.
  destruct (delete_collection T del id st Hdel) as [Hres Hcol].
  split; [rewrite Hres; simpl; apply bool_decide_eq_true|].
  split; [rewrite Hcol; apply lookup_delete_eq|].
  split; [intros id' Hne; rewrite Hcol; by apply lookup_delete_ne|].
  split; [intros T' Hne; by apply (delete_other_collection T)|].
  apply (delete_absent T); [done|].
  rewrite Hcol. apply lookup_delete_eq.
Qed.

Lemma delete_removes_one_entry_witness :
  (Storage.deleteNote "n1" sample_note_store).1 = true ∧
  notes (Storage.deleteNote "n1" sample_note_store).2 !! "n1" = None.
Proof.
  pose proof (delete_removes_one_entry Note Storage.deleteNote "n1"
                sample_note_store eq_refl) as (Hret & Hgone & _).
  split; [apply Hret; by eexists | exact Hgone].
Defined.

(** X3.  An update neither adds nor removes a record: the identifiers of
    its collection are as before (also when the identifier is absent),
    and so are the other records and the other collections. *)
Theorem update_keeps_entries (T : entity) update id now updates st :
  op_update T = Some update →
  dom (collection T (update id now updates st).2) = dom (collection T st) ∧
  (∀ id', id' ≠ id →
     collection T (update id now updates st).2 !! id' = collection T st !! id') ∧
  (∀ T', T' ≠ T → collection T' (update id now updates st).2 = collection T' st).
Proof.
  intros Hup.
  split; [|split; [|intros T' Hne; by apply (update_other_collection T)]].
  - destruct (collection T st !! id) as [old|] eqn:Hold.
    + destruct (update_collection T update id now updates st old Hup Hold)
        as (new & _ & ->).
      by apply dom_insert_lookup_L.
    + by rewrite (update_absent T update id now updates st Hup Hold).
  - intros id' Hne.
    destruct (collection T st !! id) as [old|] eqn:Hold.
    + destruct (update_collection T update id now updates st old Hup Hold)
        as (new & _ & ->).
      by rewrite lookup_insert_ne.
    + by rewrite (update_absent T update id now updates st Hup Hold).
Qed.

Lemma update_keeps_entries_witness :
  dom (notes (Storage.updateNote "n7" 5 {["title" := VStr "x"]} sample_note_store).2)
    = dom (notes sample_note_store).
Proof.
  apply (update_keeps_entries Note Storage.updateNote "n7" 5
           {["title" := VStr "x"]} sample_note_store eq_refl).
Defined.

(** ** Updates composed *)

Lemma spread_spread (base u1 u2 : obj) :
  spread (spread base u1) u2 = spread base (spread u1 u2).
Proof. unfold spread. by rewrite (assoc_L (∪)). Qed.

Lemma set_users_id st : set_users (users st) st = st.
Proof. by destruct st. Qed.
Lemma set_flashcards_id st : set_flashcards (flashcards st) st = st.
Proof. by destruct st. Qed.

Lemma set_users_set m1 m2 st : set_users m2 (set_users m1 st) = set_users m2 st.
Proof. done. Qed.
Lemma set_notes_set m1 m2 st : set_notes m2 (set_notes m1 st) = set_notes m2 st.
Proof. done. Qed.
Lemma set_flashcards_set m1 m2 st :
  set_flashcards m2 (set_flashcards m1 st) = set_flashcards m2 st.
Proof. done. Qed.

Lemma updatedAt_over_spread (note u1 u2 : obj) (t1 t2 : value) :
  <["updatedAt" := t2]> (spread (<["updatedAt" := t1]> (spread note u1)) u2) =
  <["updatedAt" := t2]> (spread note (spread u1 u2)).
Proof.
  apply map_eq. intros g.
  destruct (decide (g = "updatedAt")) as [->|Hne].
  - by rewrite !lookup_insert_eq.
  - rewrite !lookup_insert_ne by done. rewrite !lookup_spread.
    rewrite lookup_insert_ne by done. rewrite !lookup_spread.
    by destruct (u2 !! g).
Qed.

(** X4.  Two updates of the same record, one after the other, do what one
    update does with the second partial laid over the first (for a note,
    at the time of the second): the later value of a property wins and
    nothing of the first update is lost otherwise. *)
Theorem updates_compose (T : entity) update id now1 now2 updates1 updates2 st :
  op_update T = Some update →
  update id now2 updates2 (update id now1 updates1 st).2 =
    update id now2 (spread updates1 updates2) st.
Proof.
  intros Hup. by_method Hup.
  - unfold Storage.updateUser.
    destruct (users st !! id) as [user|] eqn:Hst; simpl; [|by rewrite Hst].
    rewrite lookup_insert_eq, set_users_set, insert_insert_eq.
    by rewrite spread_spread.
  - unfold Storage.updateNote, with_props.
    destruct (notes st !! id) as [note|] eqn:Hst; simpl; [|by rewrite Hst].
    rewrite lookup_insert_eq, set_notes_set, insert_insert_eq.
    by rewrite updatedAt_over_spread.
  - unfold Storage.updateFlashcard.
    destruct (flashcards st !! id) as [card|] eqn:Hst; simpl; [|by rewrite Hst].
    rewrite lookup_insert_eq, set_flashcards_set, insert_insert_eq.
    by rewrite spread_spread.
Qed.

Lemma updates_compose_witness :
  Storage.updateNote "n1" 9 {["title" := VStr "b"]}
    (Storage.updateNote "n1" 5 {["title" := VStr "a"]} sample_note_store).2 =
  Storage.updateNote "n1" 9
    (spread {["title" := VStr "a"]} {["title" := VStr "b"]}) sample_note_store.
Proof.
  apply (updates_compose Note Storage.updateNote "n1" 5 9
           {["title" := VStr "a"]} {["title" := VStr "b"]} sample_note_store).
  reflexivity.
Defined.

(** X5.  An update with an empty partial returns the stored record and
    leaves the store exactly as it is, for users and flashcards; for a
    note it still moves [updatedAt]. *)
Theorem empty_update_is_identity (T : entity) update id now st old :
  op_update T = Some update →
  collection T st !! id = Some old →
  (T ≠ Note → update id now ∅ st = (Some old, st)) ∧
  (T = Note →
   (update id now ∅ st).1 = Some (<["updatedAt" := VDate now]> old)).
Proof.
  intros Hup Hold. by_method Hup; simpl in Hold; (split; [intros Hn|intros He]);
    try done.
  - unfold Storage.updateUser, spread. rewrite Hold, (left_id_L ∅ (∪)).
    by rewrite insert_id, set_users_id.
  - unfold Storage.updateNote, spread, with_props. rewrite Hold. simpl.
    by rewrite (left_id_L ∅ (∪)).
  - unfold Storage.updateFlashcard, spread. rewrite Hold, (left_id_L ∅ (∪)).
    by rewrite insert_id, set_flashcards_id.
Qed.

Lemma empty_update_is_identity_witness :
  Storage.updateFlashcard "c1" ∅ sample_store = (Some sample_card, sample_store).
Proof.
  apply (empty_update_is_identity Flashcard
           (λ id _ updates, Storage.updateFlashcard id updates) "c1" 0
           sample_store sample_card eq_refl eq_refl).
  discriminate.
Defined.

(** ** What creation stores *)

(** X6.  The record a create method returns and stores is its payload
    with three changes and no other: the properties the store assigns
    itself ([id], the timestamps, for a user the two Spotify tokens set to
    [null]) hold the store's values whatever the payload had there, the
    defaulted properties hold the payload's value if it is truthy and the
    default otherwise, and every other property is the payload's. *)
Theorem created_record (T : entity) id now payload st :
  let created := (op_create T id now payload st).1 in
  (∀ k v, (k, v) ∈ server_assigned T id now → created !! k = Some v) ∧
  (∀ k d, (k, d) ∈ defaulted T →
     created !! k = Some (js_or (field payload k) d)) ∧
  (∀ g, g ∉ (server_assigned T id now).*1 → g ∉ (defaulted T).*1 →
     created !! g = payload !! g).
Proof.
  simpl. repeat split.
  - intros k v Hin.
    destruct T; unfold op_create, server_assigned in *; simpl;
      unfold with_props; simpl;
      each_entry Hin ltac:(rewrite ?lookup_insert_ne by done;
                           by rewrite lookup_insert_eq).
  - intros k d Hin.
    destruct T; unfold op_create, defaulted, flashcard_defaults in *; simpl;
      unfold with_props; simpl;
      each_entry Hin ltac:(rewrite ?lookup_insert_ne by done;
                           by rewrite lookup_insert_eq).
  - intros g Hs Hd.
    destruct T; unfold op_create, server_assigned, defaulted,
      flashcard_defaults in *; simpl;
      unfold with_props; simpl;
      simpl in Hs, Hd;
      repeat match goal with
             | Hn : _ ∉ _ :: _ |- _ => apply not_elem_of_cons in Hn as [? Hn]
             end;
      by rewrite !lookup_insert_ne by congruence.
Qed.

(** A payload that tries to set the tokens and the id of a new user. *)
Lemma created_record_witness :
  let payload : obj :=
    with_props ∅ [("id", VStr "mine"); ("spotifyAccessToken", VStr "tok");
                  ("email", VStr "a@b.c")] in
  let user := (Storage.createUser "u1" 7 payload new_MemStorage).1 in
  user !! "spotifyAccessToken" = Some VNull ∧
  user !! "id" = Some (VStr "u1") ∧
  user !! "email" = Some (VStr "a@b.c").
Proof.
  intros payload user.
  pose proof (created_record User "u1" 7 payload new_MemStorage)
    as (Hset & _ & Hrest).
  split; [|split].
  - apply Hset. simpl. by repeat constructor.
  - apply Hset. simpl. by repeat constructor.
  - unfold user. change (Storage.createUser "u1" 7 payload new_MemStorage)
      with (op_create User "u1" 7 payload new_MemStorage).
    rewrite Hrest; [reflexivity| |]; simpl; intros Hin;
      repeat (apply elem_of_cons in Hin as [?|Hin]; [discriminate|]);
      by apply elem_of_nil in Hin.
Defined.

(** ** Listings and creation *)

Lemma filter_Permutation {A} (f : A → bool) (l l' : list A) :
  l ≡ₚ l' → List.filter f l ≡ₚ List.filter f l'.
Proof.
  induction 1 as [|x l l' _ IH|x y l|l l1 l2 _ IH1 _ IH2]; simpl.
  - done.
  - destruct (f x); by rewrite IH.
  - destruct (f x), (f y); try done. apply Permutation_swap.
  - by rewrite IH1.
Qed.

Lemma values_insert (m : gmap string obj) id x :
  m !! id = None → values (<[id := x]> m) ≡ₚ x :: values m.
Proof.
  intros Hm. unfold values. by rewrite (map_to_list_insert m id x Hm).
Qed.

(** X7.  Creating a record under an identifier that is not yet stored
    adds it to the listings it matches and changes no listing otherwise:
    a listing of its type returns what it returned before, and the new
    record as well exactly when its key property is the value asked
    for. *)
Theorem listing_after_create (L : listing) (v : string) id now payload st :
  collection (listing_entity L) st !! id = None →
  let created := (op_create (listing_entity L) id now payload st).1 in
  let st' := (op_create (listing_entity L) id now payload st).2 in
  op_listBy L v st' ≡ₚ
    (if strict_eq_str (field created (listing_field L)) v
     then [created] else []) ++ op_listBy L v st.
Proof.
  intros Hfresh created st'. unfold st'.
  rewrite !op_listBy_values_where, create_collection.
  unfold values_where.
  rewrite (filter_Permutation _ _ _ (values_insert _ id _ Hfresh)).
  simpl. fold created.
  by destruct (strict_eq_str (field created (listing_field L)) v).
Qed.

Lemma listing_after_create_witness :
  Storage.getFlashcardsBySet "s1"
    (Storage.createFlashcard "c2" sample_payload sample_store).2
  ≡ₚ [(Storage.createFlashcard "c2" sample_payload sample_store).1]
       ++ Storage.getFlashcardsBySet "s1" sample_store.
Proof.
  apply (listing_after_create FlashcardsBySet "s1" "c2" 0 sample_payload
           sample_store).
  reflexivity.
Defined.

(** ** Records and their keys *)

Lemma set_flashcards_other (T : entity) m st :
  T ≠ Flashcard → collection T (set_flashcards m st) = collection T st.
Proof. intros Hne. by destruct T. Qed.

Lemma review_keeps_id `{!Host} now card d (stored : obj) :
  field (spread stored (review_updates now card d)) "id" = field stored "id".
Proof. by rewrite field_spread, review_updates_lookup. Qed.

Lemma keyed_by_id_step `{!Host} st st' :
  store_step st st' → keyed_by_id st → keyed_by_id st'.
Proof.
  intros Hstep Hinv T' id' r.
  destruct Hstep as [T id now payload st|T update id now updates st Hup Hnoid
                    |T del id st Hdel|now cards idx d st].
  - destruct (decide (T' = T)) as [->|Hne].
    + rewrite create_collection.
      destruct (decide (id = id')) as [->|Hid].
      * rewrite lookup_insert_eq. intros [= <-]. apply created_id.
      * rewrite lookup_insert_ne by done. apply Hinv.
    + rewrite create_other_collection by done. apply Hinv.
  - destruct (decide (T' = T)) as [->|Hne].
    + destruct (collection T st !! id) as [old|] eqn:Hold.
      * destruct (update_stored T update id now updates st old Hup Hold)
          as (new & Hres & Hst & Hnew).
        destruct (update_collection T update id now updates st old Hup Hold)
          as (new' & Hres' & ->).
        assert (new' = new) as -> by congruence.
        destruct (decide (id = id')) as [->|Hid].
        -- rewrite lookup_insert_eq. intros [= <-].
           unfold field. rewrite Hnew, Hnoid.
           rewrite bool_decide_eq_false_2 by (by intros [_ ?]).
           by apply (Hinv T).
        -- rewrite lookup_insert_ne by done. apply Hinv.
      * rewrite (update_absent T update id now updates st Hup Hold). apply Hinv.
    + rewrite (update_other_collection T) by done. apply Hinv.
  - destruct (decide (T' = T)) as [->|Hne].
    + destruct (delete_collection T del id st Hdel) as [_ ->].
      intros [_ Hr]%lookup_delete_Some. by apply (Hinv T).
    + rewrite (delete_other_collection T) by done. apply Hinv.
  - destruct (reviewCard_cases now cards idx d st)
      as [->|(card & key & stored & Hst & ->)]; [apply Hinv|].
    destruct (decide (T' = Flashcard)) as [->|Hne];
      [|rewrite set_flashcards_other by done; apply Hinv].
    simpl. destruct (decide (key = id')) as [->|Hid].
    + rewrite lookup_insert_eq. intros [= <-]. rewrite review_keeps_id.
      by apply (Hinv Flashcard).
    + rewrite lookup_insert_ne by done. apply (Hinv Flashcard).
Qed.

(** X8.  From the empty store, creations, deletions, reviews and updates
    whose partial has no [id] property keep every record stored under
    its own [id]: the [id] property of a stored record is the key it is
    found by. *)
Theorem records_keyed_by_id `{!Host} st :
  rtc store_step new_MemStorage st → keyed_by_id st.
Proof.
  intros Hsteps.
  assert (Hnew : keyed_by_id new_MemStorage).
  { intros T id r. destruct T; simpl; by rewrite lookup_empty. }
  revert Hnew. induction Hsteps as [st|st st1 st2 Hstep _ IH]; [done|].
  intros Hinv. apply IH. by apply (keyed_by_id_step st).
Qed.

Lemma records_keyed_by_id_witness :
  keyed_by_id
    (reviewCard (H := sample_host) t_2024_01_01 (Some [sample_card]) 0
       (VStr "easy") sample_store).2.
Proof.
  apply (records_keyed_by_id (H := sample_host)).
  eapply rtc_l; [apply (step_create Flashcard "c1" 0 sample_payload)|].
  eapply rtc_l; [apply (step_review t_2024_01_01 (Some [sample_card]) 0%nat
                          (VStr "easy"))|].
  apply rtc_refl.
Defined.

(** ** Users by e-mail address *)

(** X9.  [getUserByEmail] returns a stored user whose [email] is the
    address asked for, and returns nothing exactly when no stored user has
    that address. *)
Theorem getUserByEmail_finds (email : string) st :
  (∀ user, Storage.getUserByEmail email st = Some user →
     (∃ id, users st !! id = Some user) ∧ field user "email" = VStr email) ∧
  (Storage.getUserByEmail email st = None ↔
   ∀ id user, users st !! id = Some user → field user "email" ≠ VStr email).
Proof.
  unfold Storage.getUserByEmail, values. split.
  - intros user [Hin Hf]%find_some.
    apply list_elem_of_In, list_elem_of_fmap in Hin as ([id u] & -> & Hin).
    split; [exists id; by apply elem_of_map_to_list|].
    by apply strict_eq_str_true.
  - split.
    + intros Hnone id user Hst Hmail.
      apply strict_eq_str_true in Hmail.
      rewrite (find_none _ _ Hnone user) in Hmail; [done|].
      apply list_elem_of_In, list_elem_of_fmap. exists (id, user).
      split; [done|]. by apply elem_of_map_to_list.
    + intros Hall.
      destruct (List.find _ _) as [user|] eqn:Hfind; [|done].
      apply find_some in Hfind as [Hin Hf].
      apply list_elem_of_In, list_elem_of_fmap in Hin as ([id u] & -> & Hin).
      apply elem_of_map_to_list in Hin. apply strict_eq_str_true in Hf.
      by destruct (Hall id u Hin).
Qed.

Lemma getUserByEmail_finds_witness :
  Storage.getUserByEmail "a@b.c" new_MemStorage = None.
Proof.
  apply (proj2 (getUserByEmail_finds "a@b.c" new_MemStorage)).
  intros id user Hst. simpl in Hst. rewrite lookup_empty in Hst. discriminate Hst.
Defined.

(** ** What a review leaves alone *)

Lemma review_updates_other `{!Host} now card d g :
  g ∉ ["difficulty"; "lastReviewed"; "nextReview"; "repetitions"] →
  review_updates now card d !! g = None.
Proof.
  intros Hg. rewrite review_updates_lookup.
  repeat match goal with
         | Hn : _ ∉ _ :: _ |- _ => apply not_elem_of_cons in Hn as [? Hn]
         end.
  by repeat (case_decide; [done|]).
Qed.

(** X10.  A review changes the schedule of at most one card and nothing
    else: it neither adds nor removes a card, touches no other collection,
    and leaves every property of every card other than [difficulty],
    [lastReviewed], [nextReview] and [repetitions] as it was (so [setId],
    [question], [answer] and [easinessFactor] are never changed by
    reviewing). *)
Theorem review_touches_schedule_only `{!Host} now currentCards idx d st :
  let st' := (reviewCard now currentCards idx d st).2 in
  dom (flashcards st') = dom (flashcards st) ∧
  (∀ T, T ≠ Flashcard → collection T st' = collection T st) ∧
  (∀ id old, flashcards st !! id = Some old →
     ∃ new, flashcards st' !! id = Some new ∧
       ∀ g, g ∉ ["difficulty"; "lastReviewed"; "nextReview"; "repetitions"] →
            new !! g = old !! g).
Proof.
  simpl.
  destruct (reviewCard_cases now currentCards idx d st)
    as [->|(card & key & stored & Hst & ->)].
  { split; [done|]. split; [done|]. intros id old Hold. by exists old. }
  split; [simpl; apply dom_insert_lookup_L; by eexists|].
  split; [intros T Hne; by apply set_flashcards_other|].
  intros id old Hold. simpl.
  destruct (decide (key = id)) as [->|Hne].
  - rewrite lookup_insert_eq. eexists. split; [done|].
    intros g Hg. rewrite lookup_spread, review_updates_other by done.
    congruence.
  - rewrite lookup_insert_ne by done. by exists old.
Qed.

Lemma review_touches_schedule_only_witness :
  ∃ new,
    flashcards (reviewCard (H := sample_host) t_2024_01_01 (Some [sample_card]) 0
                  (VStr "hard") sample_store).2 !! "c1" = Some new ∧
    new !! "easinessFactor" = sample_card !! "easinessFactor".
Proof.
  destruct (review_touches_schedule_only (H := sample_host) t_2024_01_01
              (Some [sample_card]) 0%nat (VStr "hard") sample_store)
    as (_ & _ & Hcard).
  destruct (Hcard "c1" sample_card eq_refl) as (new & Hst & Hframe).
  exists new. split; [exact Hst|]. apply Hframe.
  intros Hin.
  repeat (apply elem_of_cons in Hin as [?|Hin]; [discriminate|]).
  by apply elem_of_nil in Hin.
Defined.

(** X11.  Two reviews made from the same copy of a card count once: the
    second computes [repetitions] from the copy, not from the store, so
    after both the counter is the copy's plus one (for a counter below
    2^53) and the schedule is that of the second review (the last write
    wins). *)
Theorem stale_review_counts_once `{!Host} now1 now2 cards idx card id d1 d2 st :
  cards !! idx = Some card →
  field card "id" = VStr id →
  flashcards st !! id = Some card →
  is_count (field card "repetitions") = true →
  count_of (field card "repetitions") < 2 ^ 53 →
  let st1 := (reviewCard now1 (Some cards) idx d1 st).2 in
  let st2 := (reviewCard now2 (Some cards) idx d2 st1).2 in
  ∃ card2,
    flashcards st2 !! id = Some card2 ∧
    field card2 "repetitions" = VNum (count_of (field card "repetitions") + 1) ∧
    field card2 "lastReviewed" = VDate now2.
Proof.
  intros Hc Hid Hst Hn Hlt st1 st2. unfold st2, st1.
  rewrite (reviewCard_found _ _ _ _ _ _ _ _ Hc Hid Hst). simpl.
  erewrite reviewCard_found; [|done|done|simpl; apply lookup_insert_eq].
  simpl. eexists. split; [apply lookup_insert_eq|].
  rewrite !field_spread, !review_updates_lookup. simpl.
  split; [by apply next_count_safe|done].
Qed.

Lemma stale_review_counts_once_witness :
  let st1 := (reviewCard (H := sample_host) 10 (Some [sample_card]) 0
                (VStr "easy") sample_store).2 in
  let st2 := (reviewCard (H := sample_host) 20 (Some [sample_card]) 0
                (VStr "easy") st1).2 in
  ∃ card2,
    flashcards st2 !! "c1" = Some card2 ∧
    field card2 "repetitions" = VNum (0 + 1) ∧
    field card2 "lastReviewed" = VDate 20.
Proof.
  apply (stale_review_counts_once (H := sample_host) 10 20 [sample_card] 0%nat
           sample_card "c1" (VStr "easy") (VStr "easy") sample_store);
    reflexivity.
Defined.

(** ** The update routes *)

(** X12.  [PUT /api/flashcards/:id] and [PUT /api/notes/:id] answer 404
    exactly when the identifier is not stored, and then change nothing;
    otherwise they answer with the record that is stored under the
    identifier afterwards. *)
Theorem put_routes_answer (id : string) (now : Z) (updates : obj) st :
  (flashcards st !! id = None →
   put_flashcard id updates st = (res_status_json 404 "Flashcard not found", st)) ∧
  (notes st !! id = None →
   put_note id now updates st = (res_status_json 404 "Note not found", st)) ∧
  (is_Some (flashcards st !! id) →
   ∃ card, (put_flashcard id updates st).1 = res_json card ∧
           flashcards (put_flashcard id updates st).2 !! id = Some card) ∧
  (is_Some (notes st !! id) →
   ∃ note, (put_note id now updates st).1 = res_json note ∧
           notes (put_note id now updates st).2 !! id = Some note).
Proof.
  unfold put_flashcard, put_note, Storage.updateFlashcard, Storage.updateNote.
  repeat split.
  - by intros ->.
  - by intros ->.
  - intros [card ->]. simpl. eexists. split; [done|]. apply lookup_insert_eq.
  - intros [note ->]. simpl. eexists. split; [done|]. apply lookup_insert_eq.
Qed.

Lemma put_routes_answer_witness :
  put_note "n7" 5 {["title" := VStr "x"]} sample_note_store
    = (res_status_json 404 "Note not found", sample_note_store).
Proof.
  apply (put_routes_answer "n7" 5 {["title" := VStr "x"]} sample_note_store).
  reflexivity.
Defined.

(** ** Timestamps of notes *)

(** X13.  While the clock does not go back and no update sets
    [createdAt], every stored note has dates in [createdAt] and
    [updatedAt], and [updatedAt] is not before [createdAt] nor after the
    time of the last call. *)
Theorem notes_updated_after_created t st :
  notes_history t st →
  ∀ id note, notes st !! id = Some note →
    ∃ c u, field note "createdAt" = VDate c ∧
           field note "updatedAt" = VDate u ∧
           c ≤ u ∧ u ≤ t.
Proof.
  induction 1 as [t|t id now payload st _ IH Hle|t id now updates st _ IH Hle Hc
                 |t id st _ IH]; intros id' note'.
  - simpl. by rewrite lookup_empty.
  - simpl. destruct (decide (id = id')) as [->|Hne].
    + rewrite lookup_insert_eq. intros [= <-]. exists now, now.
      unfold with_props. simpl.
      rewrite !field_insert_ne, field_insert_eq by done.
      rewrite !field_insert_ne, field_insert_eq by done.
      repeat split; [lia..].
    + rewrite lookup_insert_ne by done. intros Hst.
      destruct (IH id' note' Hst) as (c & u & ? & ? & ? & ?).
      exists c, u. repeat split; [done..|lia].
  - unfold Storage.updateNote.
    destruct (notes st !! id) as [note|] eqn:Hst; simpl.
    + destruct (decide (id = id')) as [->|Hne].
      * rewrite lookup_insert_eq. intros [= <-].
        destruct (IH id' note Hst) as (c & u & Hcr & _ & ? & ?).
        exists c, now. unfold with_props. simpl.
        rewrite field_insert_ne, field_insert_eq by done.
        rewrite field_spread, Hc. repeat split; [done|lia..].
      * rewrite lookup_insert_ne by done. intros Hst'.
        destruct (IH id' note' Hst') as (c & u & ? & ? & ? & ?).
        exists c, u. repeat split; [done..|lia].
    + intros Hst'.
      destruct (IH id' note' Hst') as (c & u & ? & ? & ? & ?).
      exists c, u. repeat split; [done..|lia].
  - simpl. intros [_ Hst]%lookup_delete_Some. by apply (IH id' note').
Qed.

Lemma notes_updated_after_created_witness :
  ∃ note c u,
    notes (Storage.updateNote "n1" 5 {["title" := VStr "x"]} sample_note_store).2
      !! "n1" = Some note ∧
    field note "createdAt" = VDate c ∧ field note "updatedAt" = VDate u ∧
    c ≤ u ∧ u ≤ 5.
Proof.
  eexists.
  destruct (notes_updated_after_created 5
              (Storage.updateNote "n1" 5 {["title" := VStr "x"]} sample_note_store).2)
    with (id := "n1") (note := <["updatedAt" := VDate 5]>
            (spread (Storage.createNote "n1" 0 sample_note_payload new_MemStorage).1
               {["title" := VStr "x"]}))
    as (c & u & Hc & Hu & Hcu & Hu5).
  - apply (notes_updated 0); [|lia|reflexivity].
    apply (notes_created 0); [apply notes_start|lia].
  - reflexivity.
  - exists c, u. split; [reflexivity|]. by repeat split.
Defined.

(** ** The study session *)

Lemma easy_count_cons now d ratings :
  easy_count ((now, d) :: ratings) =
    (if strict_eq_str d "easy" then 1 else 0) + easy_count ratings.
Proof.
  unfold easy_count. simpl. destruct (strict_eq_str d "easy"); simpl; lia.
Qed.

(** Rating a card that is not the last of the deck. *)
Lemma rateCard_next `{!Host} now cards card d s :
  cards !! cardIndex s = Some card →
  (cardIndex s + 1 < length cards)%nat →
  rateCard now (Some cards) d s =
    (Some (mkMutation (field card "id") (review_updates now card d)), None,
     mkSession (currentSet s) (cardIndex s + 1) false
       (mkStudyStats (correct (stats s) + (if strict_eq_str d "easy" then 1 else 0))
                     (total (stats s) + 1))).
Proof.
  intros Hc Hlt. unfold rateCard, handleDifficultyRating. rewrite Hc. simpl.
  destruct (Z.ltb_spec (Z.of_nat (cardIndex s)) (Z.of_nat (length cards) - 1));
    [done|lia].
Qed.

(** Rating the last card of the deck. *)
Lemma rateCard_last `{!Host} now cards card d s :
  cards !! cardIndex s = Some card →
  (cardIndex s + 1 = length cards)%nat →
  rateCard now (Some cards) d s =
    (Some (mkMutation (field card "id") (review_updates now card d)),
     Some (mkToast "Deck completed! 🎉"
             ("You got "
              +:+ pretty (correct (stats s) + (if strict_eq_str d "easy" then 1 else 0))
              +:+ " out of " +:+ pretty (total (stats s) + 1) +:+ " correct.")),
     mkSession None 0 (showAnswer s) (mkStudyStats 0 0)).
Proof.
  intros Hc Hlt. unfold rateCard, handleDifficultyRating. rewrite Hc. simpl.
  destruct (Z.ltb_spec (Z.of_nat (cardIndex s)) (Z.of_nat (length cards) - 1));
    [lia|done].
Qed.

Lemma sent_for_cons `{!Host} cards i card now d ratings :
  cards !! i = Some card →
  sent_for cards i ((now, d) :: ratings) =
    mkMutation (field card "id") (review_updates now card d)
      :: sent_for cards (S i) ratings.
Proof. intros Hc. unfold sent_for. by rewrite (drop_S _ _ _ Hc). Qed.

Lemma revealed_session cs i b st :
  revealed (mkSession cs i b st) = mkSession cs i true st.
Proof. by destruct b. Qed.

Lemma study_within `{!Host} cards ratings cs i b c t :
  (i + length ratings < length cards)%nat →
  study cards ratings (mkSession cs i b (mkStudyStats c t)) =
    (sent_for cards i ratings, [],
     mkSession cs (i + length ratings)
       (match ratings with [] => b | _ => false end)
       (mkStudyStats (c + easy_count ratings) (t + Z.of_nat (length ratings)))).
Proof.
  revert i b c t. induction ratings as [|[now d] ratings IH]; intros i b c t Hlt.
  - simpl. unfold sent_for, easy_count. simpl.
    rewrite Nat.add_0_r, !Z.add_0_r. by destruct (drop i cards).
  - simpl in Hlt.
    destruct (lookup_lt_is_Some_2 cards i) as [card Hc]; [lia|].
    cbn [study]. rewrite revealed_session.
    rewrite (rateCard_next now cards card d); [|done|simpl; lia].
    cbn [currentSet cardIndex showAnswer stats correct total].
    replace (i + 1)%nat with (S i) by lia.
    rewrite IH by lia. rewrite (sent_for_cons _ _ _ _ _ _ Hc), easy_count_cons.
    simpl length. cbn [option_list app].
    replace (S i + length ratings)%nat with (i + S (length ratings))%nat by lia.
    replace (t + 1 + Z.of_nat (length ratings))
      with (t + Z.of_nat (S (length ratings))) by lia.
    rewrite Z.add_assoc. by destruct ratings.
Qed.

Lemma study_to_end `{!Host} cards ratings cs i b c t :
  ratings ≠ [] →
  (i + length ratings = length cards)%nat →
  study cards ratings (mkSession cs i b (mkStudyStats c t)) =
    (sent_for cards i ratings,
     [mkToast "Deck completed! 🎉"
        ("You got " +:+ pretty (c + easy_count ratings)
         +:+ " out of " +:+ pretty (t + Z.of_nat (length ratings)) +:+ " correct.")],
     mkSession None 0 true (mkStudyStats 0 0)).
Proof.
  revert i b c t. induction ratings as [|[now d] ratings IH];
    intros i b c t Hne Hlen; [done|].
  simpl in Hlen.
  destruct (lookup_lt_is_Some_2 cards i) as [card Hc]; [lia|].
  rewrite (sent_for_cons _ _ _ _ _ _ Hc), easy_count_cons.
  destruct ratings as [|r ratings].
  - cbn [study]. rewrite revealed_session.
    rewrite (rateCard_last now cards card d); [|done|simpl in *; lia].
    cbn [currentSet cardIndex showAnswer stats correct total option_list app length].
    unfold sent_for, easy_count. simpl.
    rewrite Z.add_0_r. by destruct (drop (S i) cards).
  - cbn [study]. rewrite revealed_session.
    rewrite (rateCard_next now cards card d); [|done|simpl in *; lia].
    cbn [currentSet cardIndex showAnswer stats correct total].
    replace (i + 1)%nat with (S i) by lia.
    specialize (IH (S i) false
                  (c + (if strict_eq_str d "easy" then 1 else 0)) (t + 1)).
    cbn [study] in IH. cbn [study]. rewrite IH; [|done|simpl in *; lia].
    simpl length. cbn [option_list app].
    replace (t + 1 + Z.of_nat (S (length ratings)))
      with (t + Z.of_nat (S (S (length ratings)))) by lia.
    by rewrite Z.add_assoc.
Qed.

(** X14.  In a session started on a set, rating fewer cards than the deck
    has sends one mutation per rating, for the cards of the deck in their
    order, shows no toast, and leaves the view on the next card with the
    answer hidden, [studyStats.total] the number of ratings and
    [studyStats.correct] the number of them that were "easy". *)
Theorem study_counts_ratings `{!Host} (set : obj) cards ratings s0 :
  (length ratings < length cards)%nat →
  study cards ratings (startStudySession set s0) =
    (sent_for cards 0 ratings, [],
     mkSession (Some set) (length ratings) false
       (mkStudyStats (easy_count ratings) (Z.of_nat (length ratings)))).
Proof.
  intros Hlt. unfold startStudySession.
  rewrite study_within by (simpl; lia). simpl.
  repeat f_equal. by destruct ratings.
Qed.

Lemma study_counts_ratings_witness :
  study (H := sample_host) [sample_card; sample_card; sample_card]
    [(10, VStr "easy"); (20, VStr "hard")]
    (startStudySession sample_payload initial_session) =
  (sent_for (H := sample_host) [sample_card; sample_card; sample_card] 0
     [(10, VStr "easy"); (20, VStr "hard")], [],
   mkSession (Some sample_payload) 2 false (mkStudyStats 1 2)).
Proof.
  apply (study_counts_ratings (H := sample_host) sample_payload
           [sample_card; sample_card; sample_card]
           [(10, VStr "easy"); (20, VStr "hard")] initial_session).
  simpl. lia.
Defined.

(** X15.  Rating every card of a deck once, each turned to its answer,
    ends the session: each card got its mutation, in order, one toast says
    how many of the ratings were "easy" out of the number of cards, and
    the view is back to no set, index 0 and empty statistics, with
    [showAnswer] still true, as the last rating left it. *)
Theorem study_completes_deck `{!Host} (set : obj) cards ratings s0 :
  cards ≠ [] →
  length ratings = length cards →
  study cards ratings (startStudySession set s0) =
    (sent_for cards 0 ratings,
     [mkToast "Deck completed! 🎉"
        ("You got " +:+ pretty (easy_count ratings)
         +:+ " out of " +:+ pretty (Z.of_nat (length cards)) +:+ " correct.")],
     mkSession None 0 true (mkStudyStats 0 0)).
Proof.
  intros Hne Hlen. unfold startStudySession.
  rewrite study_to_end; [|by destruct ratings, cards|simpl; lia].
  by rewrite Hlen.
Qed.

Lemma study_completes_deck_witness :
  study (H := sample_host) [sample_card; sample_card]
    [(10, VStr "easy"); (20, VStr "hard")]
    (startStudySession sample_payload initial_session) =
  (sent_for (H := sample_host) [sample_card; sample_card] 0
     [(10, VStr "easy"); (20, VStr "hard")],
   [mkToast "Deck completed! 🎉" "You got 1 out of 2 correct."],
   mkSession None 0 true (mkStudyStats 0 0)).
Proof.
  apply (study_completes_deck (H := sample_host) sample_payload
           [sample_card; sample_card]
           [(10, VStr "easy"); (20, VStr "hard")] initial_session).
  - discriminate.
  - reflexivity.
Defined.

(** ** Generating a flashcard set *)

Lemma create_cards_other `{!Host} parseCard uuid n set cards st (T : entity) :
  T ≠ Flashcard →
  collection T (create_cards parseCard uuid n set cards st).2 = collection T st.
Proof.
  intros Hne. revert n st. induction cards as [|c cards IH]; intros n st; [done|].
  simpl. destruct (parseCard (card_input set c)); [done|].
  rewrite IH. by destruct T.
Qed.

Lemma create_cards_app `{!Host} parseCard uuid n set before bad after message st :
  (∀ c, c ∈ before → ∃ data, parseCard (card_input set c) = inr data) →
  parseCard (card_input set bad) = inl message →
  create_cards parseCard uuid n set (before ++ bad :: after) st =
    (Some message, (create_cards parseCard uuid n set before st).2).
Proof.
  revert n st. induction before as [|c before IH]; intros n st Hok Hbad.
  - simpl. by rewrite Hbad.
  - simpl. destruct (Hok c) as [data ->]; [by left|].
    apply IH; [|done]. intros c' Hin. apply Hok. by right.
Qed.

Lemma create_cards_all `{!Host} parseCard uuid n set cards st :
  (∀ c, c ∈ cards → ∃ data, parseCard (card_input set c) = inr data) →
  (create_cards parseCard uuid n set cards st).1 = None.
Proof.
  revert n st. induction cards as [|c cards IH]; intros n st Hok; [done|].
  simpl. destruct (Hok c) as [data ->]; [by left|].
  apply IH. intros c' Hin. apply Hok. by right.
Qed.

(** X16.  Generation is not atomic.  Once the document is found and the
    set's payload parses, the set is stored and stays stored whatever
    happens to the cards: when the parse of a card throws, the answer is
    500 with the error's message, the set and the cards before that one
    are in the store and the later cards are not created; when every card
    parses the answer is the set. *)
Theorem generate_keeps_partial_work `{!Host} (parseSet parseCard : obj → string + obj)
    documentId generatedCards setId now uuid st document setData :
  Storage.getDocument documentId st = Some document →
  parseSet (set_input document generatedCards) = inr setData →
  let set := (Storage.createFlashcardSet setId now setData st).1 in
  let st1 := (Storage.createFlashcardSet setId now setData st).2 in
  let result :=
    post_flashcard_sets_generate parseSet parseCard documentId
      (inr generatedCards) setId now uuid st in
  flashcardSets result.2 !! setId = Some set ∧
  (∀ before bad after message,
     generatedCards = (before ++ bad :: after)%list →
     (∀ c, c ∈ before → ∃ data, parseCard (card_input set c) = inr data) →
     parseCard (card_input set bad) = inl message →
     result.1 = res_status_json 500 ("Failed to generate flashcards: " +:+ message) ∧
     flashcards result.2 = flashcards (create_cards parseCard uuid 0 set before st1).2) ∧
  ((∀ c, c ∈ generatedCards → ∃ data, parseCard (card_input set c) = inr data) →
   result.1 = res_json set).
Proof.
  intros Hdoc Hset set st1 result.
  assert (Hres : result =
    match create_cards parseCard uuid 0 set generatedCards st1 with
    | (Some message, st2) =>
        (res_status_json 500 ("Failed to generate flashcards: " +:+ message), st2)
    | (None, st2) => (res_json set, st2)
    end).
  { unfold result, post_flashcard_sets_generate. by rewrite Hdoc, Hset. }
  split; [|split].
  - assert (Hst2 : result.2 = (create_cards parseCard uuid 0 set generatedCards st1).2).
    { rewrite Hres. by destruct (create_cards _ _ _ _ _ _) as [[?|] ?]. }
    rewrite Hst2.
    rewrite (create_cards_other _ _ _ _ _ _ FlashcardSet) by done.
    apply lookup_insert_eq.
  - intros before bad after message -> Hok Hbad. rewrite Hres.
    by rewrite (create_cards_app _ _ _ _ _ _ _ message _ Hok Hbad).
  - intros Hok. rewrite Hres.
    pose proof (create_cards_all parseCard uuid 0%nat set generatedCards st1 Hok).
    by destruct (create_cards _ _ _ _ _ _) as [[?|] ?].
Qed.

(** X17.  What fails before the set is created leaves the store as it
    is: an unknown document is answered 404, and an error from the
    generation or from the parse of the set's payload is answered 500
    with its message. *)
Theorem generate_fails_early `{!Host} (parseSet parseCard : obj → string + obj)
    documentId generated setId now uuid st :
  (Storage.getDocument documentId st = None →
   post_flashcard_sets_generate parseSet parseCard documentId generated setId
     now uuid st = (res_status_json 404 "Document not found", st)) ∧
  (∀ document message,
     Storage.getDocument documentId st = Some document →
     generated = inl message ∨
     (∃ cards, generated = inr cards ∧
               parseSet (set_input document cards) = inl message) →
     post_flashcard_sets_generate parseSet parseCard documentId generated setId
       now uuid st =
       (res_status_json 500 ("Failed to generate flashcards: " +:+ message), st)).
Proof.
  unfold post_flashcard_sets_generate. split.
  - by intros ->.
  - intros document message -> [->|(cards & -> & ->)]; done.
Qed.

Lemma generate_keeps_partial_work_witness :
  let result :=
    post_flashcard_sets_generate (H := sample_host) sample_parseSet
      sample_parseCard "d1" (inr [good_card; bad_card; good_card]) "s1" 3
      sample_uuid sample_document_store in
  result.1 = res_status_json 500 "Failed to generate flashcards: question: Required" ∧
  is_Some (flashcardSets result.2 !! "s1") ∧
  is_Some (flashcards result.2 !! "k0") ∧
  flashcards result.2 !! "k1" = None.
Proof.
  intros result.
  destruct (generate_keeps_partial_work (H := sample_host) sample_parseSet
              sample_parseCard "d1" [good_card; bad_card; good_card] "s1" 3
              sample_uuid sample_document_store _ _ eq_refl eq_refl)
    as (Hset & Hfail & _).
  destruct (Hfail [good_card] bad_card [good_card] "question: Required" eq_refl)
    as (Hresp & Hcards).
  - intros c ->%list_elem_of_singleton. by eexists.
  - reflexivity.
  - split; [exact Hresp|]. split; [by eexists|].
    unfold result. rewrite Hcards. split; [by eexists|reflexivity].
Defined.

Lemma generate_fails_early_witness :
  post_flashcard_sets_generate (H := sample_host) sample_parseSet
    sample_parseCard "d2" (inr [good_card]) "s1" 3 sample_uuid
    sample_document_store
  = (res_status_json 404 "Document not found", sample_document_store).
Proof.
  apply (generate_fails_early (H := sample_host) sample_parseSet
           sample_parseCard "d2" (inr [good_card]) "s1" 3 sample_uuid
           sample_document_store).
  reflexivity.
Defined.

(** ** A session against the store *)

Lemma put_flashcard_other id id' updates st :
  id ≠ id' →
  flashcards (put_flashcard id updates st).2 !! id' = flashcards st !! id'.
Proof.
  intros Hne. unfold put_flashcard, Storage.updateFlashcard.
  destruct (flashcards st !! id); simpl; [by rewrite lookup_insert_ne|done].
Qed.

Lemma serve_all_other `{!Host} sent st id :
  (∀ m, m ∈ sent → to_string (mut_id m) ≠ id) →
  flashcards (serve_all sent st) !! id = flashcards st !! id.
Proof.
  revert st. induction sent as [|m sent IH]; intros st Hall; [done|].
  simpl. rewrite IH.
  - apply put_flashcard_other, Hall. by left.
  - intros m' Hin. apply Hall. by right.
Qed.

Lemma serve_all_reviews `{!Host} ids cards ratings st :
  NoDup ids →
  length ids = length cards →
  (∀ j id card, ids !! j = Some id → cards !! j = Some card →
     field card "id" = VStr id ∧ flashcards st !! id = Some card) →
  ∀ k id card now d,
    ids !! k = Some id → cards !! k = Some card → ratings !! k = Some (now, d) →
    flashcards (serve_all (sent_for cards 0 ratings) st) !! id =
      Some (spread card (review_updates now card d)).
Proof.
  unfold sent_for. simpl. revert ids ratings st.
  induction cards as [|c cards IH];
    intros ids ratings st Hnd Hlen Hall k id card now d Hid Hcard Hr.
  { by rewrite lookup_nil in Hcard. }
  destruct ids as [|id0 ids]; [done|].
  apply NoDup_cons in Hnd as [Hnotin Hnd].
  destruct ratings as [|[now0 d0] ratings]; [by rewrite lookup_nil in Hr|].
  destruct (Hall 0%nat id0 c eq_refl eq_refl) as [Hid0 Hst0].
  simpl. rewrite Hid0. simpl.
  assert (Hput : (put_flashcard id0 (review_updates now0 c d0) st).2 =
                 set_flashcards
                   (<[id0 := spread c (review_updates now0 c d0)]> (flashcards st)) st).
  { unfold put_flashcard, Storage.updateFlashcard. by rewrite Hst0. }
  rewrite Hput.
  assert (Htail : ∀ j idj cj, ids !! j = Some idj → cards !! j = Some cj →
            field cj "id" = VStr idj ∧ flashcards st !! idj = Some cj ∧ idj ≠ id0).
  { intros j idj cj Hj Hcj.
    destruct (Hall (S j) idj cj Hj Hcj) as [? ?]. repeat split; [done..|].
    intros ->. apply Hnotin. by apply list_elem_of_lookup_2 in Hj. }
  destruct k as [|k]; simpl in Hid, Hcard, Hr.
  - injection Hid as <-. injection Hcard as <-. injection Hr as <- <-.
    rewrite serve_all_other; [simpl; apply lookup_insert_eq|].
    intros m Hin.
    apply list_elem_of_lookup in Hin as [j Hj].
    apply lookup_zip_with_Some in Hj as (cj & rj & -> & Hcj & _). simpl.
    destruct (lookup_lt_is_Some_2 ids j) as [idj Hidj].
    { simpl in Hlen. apply lookup_lt_Some in Hcj. lia. }
    destruct (Htail j idj cj Hidj Hcj) as (Hfj & _ & Hne).
    by rewrite Hfj.
  - apply (IH ids ratings _ Hnd) with (k := k); try done.
    { simpl in Hlen. lia. }
    intros j idj cj Hj Hcj.
    destruct (Htail j idj cj Hj Hcj) as (Hfj & Hstj & Hne).
    split; [done|]. simpl. by rewrite lookup_insert_ne.
Qed.

(** X18.  A session against the store.  When the deck holds the stored
    cards of distinct identifiers, as fetched, then after the requests of
    a run have been served every card that was rated is stored with the
    update computed for it from its fetched copy merged over it: each
    rated card is reviewed exactly once, with its own rating (its counter,
    when below 2^53, one higher). *)
Theorem session_reviews_each_card `{!Host} ids cards ratings st :
  NoDup ids →
  length ids = length cards →
  (∀ j id card, ids !! j = Some id → cards !! j = Some card →
     field card "id" = VStr id ∧ flashcards st !! id = Some card) →
  ∀ k id card now d,
    ids !! k = Some id → cards !! k = Some card → ratings !! k = Some (now, d) →
    ∃ reviewed,
      flashcards (serve_all (sent_for cards 0 ratings) st) !! id = Some reviewed ∧
      field reviewed "lastReviewed" = VDate now ∧
      (is_count (field card "repetitions") = true →
       count_of (field card "repetitions") < 2 ^ 53 →
       field reviewed "repetitions" = VNum (count_of (field card "repetitions") + 1)) ∧
      ∀ g, g ∉ ["difficulty"; "lastReviewed"; "nextReview"; "repetitions"] →
           reviewed !! g = card !! g.
Proof.
  intros Hnd Hlen Hall k id card now d Hid Hcard Hr.
  eexists. split; [by eapply serve_all_reviews|].
  split; [by rewrite field_spread, review_updates_lookup|]. split.
  - intros Hn Hlt. rewrite field_spread, review_updates_lookup. simpl.
    by apply next_count_safe.
  - intros g Hg. by rewrite lookup_spread, review_updates_other.
Qed.

(** A deck of two cards, the first rated easy at 10 and the second hard
    at 20: each is stored with its own review. *)
Lemma session_reviews_each_card_witness :
  let served :=
    serve_all (H := sample_host)
      (sent_for (H := sample_host) [sample_card; sample_card_2] 0
         [(10, VStr "easy"); (20, VStr "hard")])
      two_card_store in
  (∃ reviewed,
     flashcards served !! "c1" = Some reviewed ∧
     field reviewed "lastReviewed" = VDate 10 ∧
     field reviewed "repetitions" = VNum (0 + 1)) ∧
  (∃ reviewed,
     flashcards served !! "c2" = Some reviewed ∧
     field reviewed "lastReviewed" = VDate 20 ∧
     field reviewed "repetitions" = VNum (0 + 1)).
Proof.
  intros served.
  assert (Hnd : NoDup ["c1"; "c2"]).
  { apply NoDup_cons. split; [|apply NoDup_singleton].
    intros Hin%list_elem_of_singleton. discriminate Hin. }
  assert (Hdeck : ∀ (j : nat) id card,
            ["c1"; "c2"] !! j = Some id →
            [sample_card; sample_card_2] !! j = Some card →
            field card "id" = VStr id ∧ flashcards two_card_store !! id = Some card).
  { intros [|[|j]] id card Hj Hc; [| |by destruct j];
      injection Hj as <-; injection Hc as <-; by split. }
  pose proof (session_reviews_each_card (H := sample_host) ["c1"; "c2"]
                [sample_card; sample_card_2]
                [(10, VStr "easy"); (20, VStr "hard")] two_card_store
                Hnd eq_refl Hdeck) as Hall.
  split.
  - destruct (Hall 0%nat "c1" sample_card 10 (VStr "easy") eq_refl eq_refl eq_refl)
      as (reviewed & Hst & Hlast & Hrep & _).
    exists reviewed. split; [exact Hst|]. split; [exact Hlast|].
    apply Hrep; reflexivity.
  - destruct (Hall 1%nat "c2" sample_card_2 20 (VStr "hard") eq_refl eq_refl eq_refl)
      as (reviewed & Hst & Hlast & Hrep & _).
    exists reviewed. split; [exact Hst|]. split; [exact Hlast|].
    apply Hrep; reflexivity.
Defined.
